(** * webxr-layers: media layers, session bootstrap and toolbar interaction

    A shallow embedding of
      - [src/util/MediaLayerManager.js]                      (module [MediaLayerManager]),
      - [src/unnamed/part_000], the single-layer application (module [SingleLayer]),
      - [src/apps/simple-video-layers/multiple-layers.js]    (module [MultipleLayers]),
    followed by the properties of the specification that were checked
    against them.

    Conventions.
      - JavaScript objects used as dictionaries are [gmap string _]; a JS [Map]
        (iterated in insertion order) is an association list.
      - An [async] function never throws to its caller: its body runs up to the
        first [await], and an exception raised in the body rejects the promise
        it returned.  Suspended continuations are kept in the application
        state and resumed by explicit events.
      - Calls made to the host (session, compositor binding, video elements,
        scene graph) are recorded in a log, in program order.
      - JavaScript numbers that carry playback time are modelled by exact
        rationals; readiness levels and handles are natural numbers. *)

From Stdlib Require Import QArith Lia Lqa.
From stdpp Require Import base decidable option list strings gmap.

(** ** JavaScript values *)

Inductive value : Type :=
| VUndefined
| VNull
| VBool (b : bool)
| VNumber (n : Z)
| VString (s : string)
| VRef (handle : N).

#[global] Instance value_eq_dec : EqDecision value.
Proof. solve_decision. Defined.

(** [a !== b] on the values above. *)
Definition strict_neq (a b : value) : bool := bool_decide (a ≠ b).

(** What a [throw] or a rejected promise carries. *)
Inductive error : Type :=
| InvalidLayerType          (* [new Error("Invalid layer type: ...")] *)
| TypeError (what : string) (* raised by the language itself *)
| HostError (code : N).     (* raised by the session or the compositor binding *)

#[global] Instance error_eq_dec : EqDecision error.
Proof. solve_decision. Defined.

(** The settled state of a promise. *)
Inductive settled (A : Type) : Type :=
| Resolved (a : A)
| Rejected (reason : error).
Arguments Resolved {A} a.
Arguments Rejected {A} reason.

(** ** JavaScript [Map]

    Entries are kept in insertion order; [set] on a key already present
    replaces the value in place. *)

Module JsMap.
Section WithValues.
Context {A : Type}.

Fixpoint get (k : string) (m : list (string * A)) : option A :=
    match m with
    | [] => None
    | (k', a) :: m' => if decide (k' = k) then Some a else get k m'
    end.

Fixpoint set (k : string) (a : A) (m : list (string * A)) : list (string * A) :=
    match m with
    | [] => [(k, a)]
    | (k', a') :: m' =>
        if decide (k' = k) then (k, a) :: m' else (k', a') :: set k a m'
    end.

Definition keys (m : list (string * A)) : list string := m.*1.
End WithValues.
End JsMap.

(** ** [MediaLayerManager] *)

Module MediaLayerManager.

(** [static get QUAD_LAYER()] and [static get EQUIRECT_LAYER()]. *)
Definition QUAD_LAYER : string := "QUAD_LAYER".
Definition EQUIRECT_LAYER : string := "EQUIRECT_LAYER".

(** Where a member of the class lives. *)
Inductive member : Type :=
| StaticGetter (result : string)   (* a property of the class itself *)
| Method                           (* a property of the prototype *)
| Field (v : value).               (* an own property set by the constructor *)

(** The members of [class MediaLayerManager], for an instance built on
    [session] with media binding [mediaFactory]. *)
Definition members (session mediaFactory : N) : list (string * member) :=
  [ ("session", Field (VRef session));
    ("mediaFactory", Field (VRef mediaFactory));
    ("QUAD_LAYER", StaticGetter QUAD_LAYER);
    ("EQUIRECT_LAYER", StaticGetter EQUIRECT_LAYER);
    ("createMediaFactory", Method);
    ("createLayer", Method) ].

(** [this.name] inside a method: own fields and prototype methods are
    found; static members belong to the constructor function and are not on
    the prototype chain of an instance, so reading them yields [undefined]. *)
Definition this_get (session mediaFactory : N) (name : string) : value :=
  match JsMap.get name (members session mediaFactory) with
  | Some (Field v) => v
  | Some Method => VRef 0
  | Some (StaticGetter _) => VUndefined
  | None => VUndefined
  end.

(** [MediaLayerManager.name]: a read on the class. *)
Definition class_get (name : string) : value :=
  match JsMap.get name (members 0 0) with
  | Some (StaticGetter s) => VString s
  | _ => VUndefined
  end.

(** Can [name] be called on an instance?  Only the methods of the class
    can: a name the class does not declare, like a static member, is
    [undefined] on the instance. *)
Definition is_method (name : string) : bool :=
  match JsMap.get name (members 0 0) with
  | Some Method => true
  | _ => false
  end.

(** Calls made to the session and to the media binding. *)
Inductive call : Type :=
| RequestReferenceSpace (kind : string)
| CreateQuadLayer (video : value) (options : gmap string value)
| CreateEquirectLayer (video : value) (options : gmap string value).

(** What the host answers. *)
Record host : Type := {
  requestReferenceSpace : string → settled value;
  createQuadLayer : value → gmap string value → value;
  createEquirectLayer : value → gmap string value → value;
}.

(** [{ space: refSpace, ...options }]: a later key overrides an earlier one. *)
Definition with_space (refSpace : value) (options : gmap string value)
  : gmap string value :=
  options ∪ {[ "space" := refSpace ]}.

(** [async createLayer(video, layerType, options)]: the calls made, in
    order, and how the returned promise settles. *)
Definition createLayer (session mediaFactory : N) (h : host)
    (video layerType : value) (options : gmap string value)
  : list call * settled value :=
  if strict_neq layerType (this_get session mediaFactory "QUAD_LAYER") &&
     strict_neq layerType (this_get session mediaFactory "EQUIRECT_LAYER")
  then ([], Rejected InvalidLayerType)
  else
    match requestReferenceSpace h "local" with
    | Rejected e => ([RequestReferenceSpace "local"], Rejected e)
    | Resolved refSpace =>
        let opts := with_space refSpace options in
        if decide (layerType = VString "QUAD_LAYER") then
          ([RequestReferenceSpace "local"; CreateQuadLayer video opts],
           Resolved (createQuadLayer h video opts))
        else if decide (layerType = VString "EQUIRECT_LAYER") then
          ([RequestReferenceSpace "local"; CreateEquirectLayer video opts],
           Resolved (createEquirectLayer h video opts))
        else
          ([RequestReferenceSpace "local"], Resolved VUndefined)
    end.

End MediaLayerManager.

(** ** The session and the scene graph *)

(** The part of an [XRSession] the applications read and write:
    the flag [session.hasMediaLayer] they set on it ([undefined], hence falsy,
    on a fresh session) and [session.renderState.layers] ([None] when the
    session has no layer support). *)
Record XRSession : Type := {
  hasMediaLayer : bool;
  layers : option (list value);
}.

Definition fresh_session (ls : option (list value)) : XRSession :=
  {| hasMediaLayer := false; layers := ls |}.

(** [session.hasMediaLayer = true]. *)
Definition mark_media_layer (s : XRSession) : XRSession :=
  {| hasMediaLayer := true; layers := layers s |}.

(** [session.updateRenderState({ layers: ls })]. *)
Definition updateRenderState (ls : list value) (s : XRSession) : XRSession :=
  {| hasMediaLayer := hasMediaLayer s; layers := Some ls |}.

(** [arr[0]]: [undefined] on an empty array. *)
Definition first_layer (ls : option (list value)) : value :=
  match ls with
  | Some (l :: _) => l
  | _ => VUndefined
  end.

(** three.js [Object3D]: every object has at most one parent.  The graph
    maps an object to its parent; the parents that matter here are the scene
    and the two controllers. *)
Module Three.

(** [renderer.xr.getController(i)] for [i = 0, 1]. *)
Inductive controller : Type := Controller0 | Controller1.

#[global] Instance controller_eq_dec : EqDecision controller.
Proof. solve_decision. Defined.

Definition controllers : list controller := [Controller0; Controller1].

(** Objects are told apart by their numeric [id]; the marker of a
    controller is the object named [`${controller.uuid} intersectPoint`]. *)
Inductive object3d : Type :=
| Obj (id : N)
| IntersectPoint (c : controller).

#[global] Instance object3d_eq_dec : EqDecision object3d.
Proof. solve_decision. Defined.

Definition object3d_code (o : object3d) : N + bool :=
  match o with
  | Obj id => inl id
  | IntersectPoint Controller0 => inr false
  | IntersectPoint Controller1 => inr true
  end.

Definition object3d_decode (x : N + bool) : object3d :=
  match x with
  | inl id => Obj id
  | inr false => IntersectPoint Controller0
  | inr true => IntersectPoint Controller1
  end.

#[global] Instance object3d_countable : Countable object3d :=
  inj_countable' object3d_code object3d_decode
    (λ o, match o with
          | Obj _ => eq_refl
          | IntersectPoint Controller0 => eq_refl
          | IntersectPoint Controller1 => eq_refl
          end).

Inductive node : Type :=
| Scene
| Ctrl (c : controller).

#[global] Instance node_eq_dec : EqDecision node.
Proof. solve_decision. Defined.

(** [parent.add(object)]: the object leaves its former parent; adding
    [undefined] only logs to the console. *)
Definition add (p : node) (o : option object3d) (g : gmap object3d node)
  : gmap object3d node :=
  match o with
  | Some o => <[o := p]> g
  | None => g
  end.

(** [parent.remove(object)]: nothing happens unless the object is a child
    of [parent]. *)
Definition remove (p : node) (o : option object3d) (g : gmap object3d node)
  : gmap object3d node :=
  match o with
  | Some o => if decide (g !! o = Some p) then delete o g else g
  | None => g
  end.

(** [scene.getObjectByName(`${controller.uuid} intersectPoint`)]. *)
Definition getIntersectPoint (c : controller) (g : gmap object3d node)
  : option object3d :=
  match g !! IntersectPoint c with
  | Some _ => Some (IntersectPoint c)
  | None => None
  end.

Definition in_scene (o : object3d) (g : gmap object3d node) : bool :=
  bool_decide (g !! o = Some Scene).

End Three.

(** ** Traces of scene operations

    What the log says happened to one object of the scene: it was added to
    the scene or removed from it. *)

Inductive scene_op : Type := Added | Removed.

#[global] Instance scene_op_eq_dec : EqDecision scene_op.
Proof. solve_decision. Defined.

(** No [Added] follows an [Added] without a [Removed] in between;
    [added] tells whether the object counts as added before the first
    operation. *)
Fixpoint no_double_add (added : bool) (ops : list scene_op) : bool :=
  match ops with
  | [] => true
  | Added :: ops' => negb added && no_double_add true ops'
  | Removed :: ops' => no_double_add false ops'
  end.

(** Was the last operation an [Added]? *)
Definition last_added (added : bool) (ops : list scene_op) : bool :=
  match last ops with
  | Some Added => true
  | Some Removed => false
  | None => added
  end.

(** ** The single-layer application ([src/unnamed/part_000]) *)

Module SingleLayer.
Import Three.

(** The [<video>] element, as far as the application reads and writes it. *)
Record Video : Type := {
  readyState : nat;
  currentTime : Q;
  duration : Q;
}.

(** A bar of the progress bar: [scale.x] and [position.x] of a mesh built
    on [PlaneGeometry(1, 0.1)]. *)
Record Mesh : Type := {
  scale_x : Q;
  position_x : Q;
}.

(** Width of the plane geometry of both bars. *)
Definition geometryWidth : Q := 1.

Definition left_edge (m : Mesh) : Q :=
  (position_x m - scale_x m * geometryWidth / 2)%Q.
Definition right_edge (m : Mesh) : Q :=
  (position_x m + scale_x m * geometryWidth / 2)%Q.

(** One entry of [raycaster.intersectObjects(...)]: the name of the object
    hit and the x coordinate of the point. *)
Record Hit : Type := {
  hit_name : string;
  hit_x : Q;
}.

Inductive effect : Type :=
| EnterBootstrap                      (* [session.hasMediaLayer = true] *)
| RequestReferenceSpace (kind : string)
| CreateEquirectLayer (space : value) (layout : string)
| UpdateRenderState (ls : list value)
| Play
| SceneAdd (o : option object3d)
| SceneRemove (o : option object3d)
| Unhandled (reason : error).         (* a rejected promise nobody handles *)

#[global] Instance single_effect_eq_dec : EqDecision effect.
Proof. solve_decision. Defined.

Record App : Type := {
  session : option XRSession;         (* [renderer.xr.getSession()] *)
  video : Video;
  isToolbarVisible : bool;            (* [scene.userData.isToolbarVisible] *)
  scene : gmap object3d node;
  redProgressBar : Mesh;
  whiteProgressBar : Mesh;
  pending : nat;                      (* [requestReferenceSpace] promises in flight *)
  log : list effect;
}.

(** [this.toolbarGroup], created once by the constructor. *)
Definition toolbarGroup : object3d := Obj 1.

Definition set_session (s : option XRSession) (a : App) : App :=
  {| session := s; video := video a; isToolbarVisible := isToolbarVisible a;
     scene := scene a; redProgressBar := redProgressBar a;
     whiteProgressBar := whiteProgressBar a; pending := pending a; log := log a |}.
Definition set_video (v : Video) (a : App) : App :=
  {| session := session a; video := v; isToolbarVisible := isToolbarVisible a;
     scene := scene a; redProgressBar := redProgressBar a;
     whiteProgressBar := whiteProgressBar a; pending := pending a; log := log a |}.
Definition set_isToolbarVisible (b : bool) (a : App) : App :=
  {| session := session a; video := video a; isToolbarVisible := b;
     scene := scene a; redProgressBar := redProgressBar a;
     whiteProgressBar := whiteProgressBar a; pending := pending a; log := log a |}.
Definition set_scene (g : gmap object3d node) (a : App) : App :=
  {| session := session a; video := video a; isToolbarVisible := isToolbarVisible a;
     scene := g; redProgressBar := redProgressBar a;
     whiteProgressBar := whiteProgressBar a; pending := pending a; log := log a |}.
Definition set_bars (r w : Mesh) (a : App) : App :=
  {| session := session a; video := video a; isToolbarVisible := isToolbarVisible a;
     scene := scene a; redProgressBar := r;
     whiteProgressBar := w; pending := pending a; log := log a |}.
Definition set_pending (n : nat) (a : App) : App :=
  {| session := session a; video := video a; isToolbarVisible := isToolbarVisible a;
     scene := scene a; redProgressBar := redProgressBar a;
     whiteProgressBar := whiteProgressBar a; pending := n; log := log a |}.
Definition emit (e : effect) (a : App) : App :=
  {| session := session a; video := video a; isToolbarVisible := isToolbarVisible a;
     scene := scene a; redProgressBar := redProgressBar a;
     whiteProgressBar := whiteProgressBar a; pending := pending a;
     log := log a ++ [e] |}.

(** [this.scene.add(o)] and [this.scene.remove(o)]. *)
Definition scene_add (o : option object3d) (a : App) : App :=
  emit (SceneAdd o) (set_scene (add Scene o (scene a)) a).
Definition scene_remove (o : option object3d) (a : App) : App :=
  emit (SceneRemove o) (set_scene (remove Scene o (scene a)) a).

(** The constructor: a fresh video element, the toolbar hidden and not in
    the scene, both bars as three.js creates them. *)
Definition constructor : App :=
  {| session := None;
     video := {| readyState := 0; currentTime := 0; duration := 0 |};
     isToolbarVisible := false;
     scene := ∅;
     redProgressBar := {| scale_x := 1; position_x := 0 |};
     whiteProgressBar := {| scale_x := 1; position_x := 0 |};
     pending := 0;
     log := [] |}.

(** [updateProgressBar()]. *)
Definition updateProgressBar (a : App) : App :=
  let progress := (currentTime (video a) / duration (video a) * 2)%Q in
  let redOffset := ((2 - progress) / 2)%Q in
  let whiteOffset := (progress / 2)%Q in
  set_bars {| scale_x := progress; position_x := (- redOffset)%Q |}
           {| scale_x := (2 - progress)%Q; position_x := whiteOffset |} a.

(** [setVideoCurrentTime(xPosition)]. *)
Definition setVideoCurrentTime (xPosition : Q) (a : App) : App :=
  let timeFraction := ((xPosition + 1) / 2)%Q in
  set_video {| readyState := readyState (video a);
               currentTime := (timeFraction * duration (video a))%Q;
               duration := duration (video a) |} a.

(** The guard of [render()]:
    [session && session.renderState.layers && !session.hasMediaLayer &&
     this.video.readyState]. *)
Definition bootstrap_guard (a : App) : bool :=
  match session a with
  | Some s =>
      bool_decide (is_Some (layers s)) && negb (hasMediaLayer s) &&
      negb (readyState (video a) =? 0)%nat
  | None => false
  end.

(** [render()], up to the point where it returns. *)
Definition render (a : App) : App :=
  let a := updateProgressBar a in
  if bootstrap_guard a then
    let a := set_session (mark_media_layer <$> session a) a in
    let a := emit EnterBootstrap a in
    let a := emit (RequestReferenceSpace "local") a in
    set_pending (S (pending a)) a
  else a.

(** The callback given to [requestReferenceSpace("local").then(...)], run
    when the promise resolves with [refSpace]; [equirectLayer] is what the
    media binding returns. *)
Definition onReferenceSpace (refSpace equirectLayer : value) (a : App) : App :=
  let a := emit (CreateEquirectLayer refSpace "stereo-top-bottom") a in
  let ls := [equirectLayer; first_layer (session a ≫= layers)] in
  let a := set_session (updateRenderState ls <$> session a) a in
  let a := emit (UpdateRenderState ls) a in
  emit Play a.

(** One of the promises in flight settles. *)
Definition settle (r : settled value) (equirectLayer : value) (a : App) : App :=
  match pending a with
  | O => a
  | S n =>
      let a := set_pending n a in
      match r with
      | Resolved refSpace => onReferenceSpace refSpace equirectLayer a
      | Rejected e => emit (Unhandled e) a
      end
  end.

Definition isProgressBar (h : Hit) : bool :=
  bool_decide (hit_name h = "white progress bar") ||
  bool_decide (hit_name h = "red progress bar").

(** [handleToolbarIntersection(controller)]; [intersections] is what the
    ray of the controller hits among the panel and the two bars. *)
Definition handleToolbarIntersection (c : controller) (intersections : list Hit)
    (a : App) : App :=
  if negb (isToolbarVisible a) then
    scene_add (Some toolbarGroup) (set_isToolbarVisible true a)
  else
    let a :=
      if (length intersections =? 0)%nat
      then scene_remove (Some toolbarGroup) (set_isToolbarVisible false a)
      else a in
    match List.find isProgressBar intersections with
    | Some h => updateProgressBar (setVideoCurrentTime (hit_x h) a)
    | None => a
    end.

(** The [disconnected] listener installed by [setupVR()]. *)
Definition onDisconnected (c : controller) (a : App) : App :=
  scene_remove (Some toolbarGroup) a.

(** What happens to the application. *)
Inductive event : Type :=
| SessionStart (ls : option (list value))  (* an XR session begins *)
| VideoChange (v : Video)                  (* the video element loads or plays on *)
| Frame                                    (* the animation loop calls [render] *)
| Settle (r : settled value) (equirectLayer : value)
| SelectStart (c : controller) (intersections : list Hit)
| Disconnected (c : controller).

Definition step (a : App) (e : event) : App :=
  match e with
  | SessionStart ls =>
      match session a with
      | None => set_session (Some (fresh_session ls)) a
      | Some _ => a
      end
  | VideoChange v => set_video v a
  | Frame => render a
  | Settle r l => settle r l a
  | SelectStart c hits => handleToolbarIntersection c hits a
  | Disconnected c => onDisconnected c a
  end.

Definition run (evs : list event) (a : App) : App := fold_left step evs a.

(** *** Vocabulary of the properties *)

(** The operation an effect performs on object [o], if any. *)
Definition scene_op_of (o : object3d) (e : effect) : option scene_op :=
  match e with
  | SceneAdd (Some o') => if decide (o' = o) then Some Added else None
  | SceneRemove (Some o') => if decide (o' = o) then Some Removed else None
  | _ => None
  end.

Definition scene_ops (o : object3d) (l : list effect) : list scene_op :=
  omap (scene_op_of o) l.

(** How many times the body of the bootstrap was entered. *)
Definition bootstraps (l : list effect) : nat :=
  length (filter (λ e, e = EnterBootstrap) l).

(** How many times [video.play()] was called. *)
Definition plays (l : list effect) : nat :=
  length (filter (λ e, e = Play) l).

(** [session.hasMediaLayer], falsy when there is no session. *)
Definition flag (a : App) : bool :=
  match session a with
  | Some s => hasMediaLayer s
  | None => false
  end.

(** The body of the bootstrap has been entered once if the flag of the
    session is set and never otherwise. *)
Definition bootstrap_inv (a : App) : Prop :=
  bootstraps (log a) = if flag a then 1%nat else 0%nat.

Definition toolbar_ops (a : App) : list scene_op := scene_ops toolbarGroup (log a).

(** The toolbar group was never added twice in a row, and when the last
    thing done to it was to add it, the toolbar is marked visible. *)
Definition toolbar_inv (a : App) : Prop :=
  no_double_add false (toolbar_ops a) = true ∧
  (last_added false (toolbar_ops a) = true → isToolbarVisible a = true).

(** An event other than a select-start. *)
Definition not_select_start (e : event) : bool :=
  match e with
  | SelectStart _ _ => false
  | _ => true
  end.

(** The toolbar group is in the scene only when the toolbar is marked
    visible. *)
Definition scene_inv (a : App) : Prop :=
  in_scene toolbarGroup (scene a) = true → isToolbarVisible a = true.

(** *** The handler of the restart button, from [createUI()] *)

(** [onRestart]: [this.video.currentTime = 0]. *)
Definition onRestart (a : App) : App :=
  set_video {| readyState := readyState (video a);
               currentTime := 0;
               duration := duration (video a) |} a.

(** *** The bootstrap as a state machine *)

(** The effects of the bootstrap: all but the operations on the scene. *)
Definition bootstrap_effect (e : effect) : bool :=
  match e with
  | SceneAdd _ | SceneRemove _ => false
  | _ => true
  end.

Definition bootstrap_log (l : list effect) : list effect :=
  filter bootstrap_effect l.

(** The layer lists given to [updateRenderState], in order. *)
Definition published (l : list effect) : list (list value) :=
  omap (λ e, match e with UpdateRenderState ls => Some ls | _ => None end) l.

Inductive phase : Type :=
| Idle
| Awaiting (ls : option (list value))
| Published (refSpace equirectLayer base : value)
| Failed (reason : error).

Definition in_phase (p : phase) (a : App) : Prop :=
  match p with
  | Idle =>
      flag a = false ∧ pending a = 0%nat ∧ bootstrap_log (log a) = []
  | Awaiting ls =>
      session a = Some {| hasMediaLayer := true; layers := ls |} ∧
      pending a = 1%nat ∧
      bootstrap_log (log a) = [EnterBootstrap; RequestReferenceSpace "local"]
  | Published refSpace equirectLayer base =>
      session a = Some {| hasMediaLayer := true;
                          layers := Some [equirectLayer; base] |} ∧
      pending a = 0%nat ∧
      bootstrap_log (log a) =
        [EnterBootstrap; RequestReferenceSpace "local";
         CreateEquirectLayer refSpace "stereo-top-bottom";
         UpdateRenderState [equirectLayer; base]; Play]
  | Failed reason =>
      flag a = true ∧ pending a = 0%nat ∧
      bootstrap_log (log a) =
        [EnterBootstrap; RequestReferenceSpace "local"; Unhandled reason]
  end.

(** The phase after an event; only the step out of [Idle] looks at the
    state. *)
Definition next_phase (a : App) (p : phase) (e : event) : phase :=
  match p, e with
  | Idle, Frame =>
      if bootstrap_guard a then Awaiting (session a ≫= layers) else Idle
  | Awaiting ls, Settle (Resolved refSpace) equirectLayer =>
      Published refSpace equirectLayer (first_layer ls)
  | Awaiting ls, Settle (Rejected reason) _ => Failed reason
  | _, _ => p
  end.

Fixpoint phase_after (a : App) (p : phase) (evs : list event) : phase :=
  match evs with
  | [] => p
  | e :: evs' => phase_after (step a e) (next_phase a p e) evs'
  end.

(** An event other than the settlement of the reference-space promise. *)
Definition quiet (e : event) : bool :=
  match e with
  | Settle _ _ => false
  | _ => true
  end.

End SingleLayer.

(** ** The multi-layer application
       ([src/apps/simple-video-layers/multiple-layers.js])

    [render] builds its factory with [new MediaLayerManager(session,
    this.renderer)] and calls [mediaFactory.createMediaLayer(...)] on it.
    The class of [src/util/MediaLayerManager.js] declares no such member, so
    the call raises a TypeError and [render] never reaches its first
    [await]; see [startBootstrap].  The statements of [render] after the
    [await]s are modelled all the same ([afterEquirect], [afterQuad]), as
    what would resume a suspended call: what a factory promise resolves to
    is then an input, and the methods of a media layer ([update],
    [updateOnRender], [glassLayer.move]) are recorded in the log as calls.
    The position given to an intersection marker is not modelled. *)

Module MultipleLayers.
Import Three.

Record Video : Type := {
  src : string;
  readyState : nat;
}.

(** A media layer as the application uses it: what it expects
    [createMediaLayer] to resolve to. *)
Record MediaLayer : Type := {
  layer : value;            (* the compositor layer *)
  toolbarGroup : N;         (* id of the toolbar group *)
  glassLayer : bool;        (* is [layerObj.glassLayer] set? *)
  glass : option N;         (* id of [layerObj.glass], when there is one *)
  objects : list N;         (* ids of the interactive objects *)
}.

(** A suspended call of [render]. *)
Inductive continuation : Type :=
| AwaitEquirect
| AwaitQuad (equirect : MediaLayer).

Inductive effect : Type :=
| EnterBootstrap                              (* [session.hasMediaLayer = true] *)
| CreateMediaLayer (key : string) (layerType : value)
| UpdateRenderState (ls : list value)
| Play (key : string)
| SceneAdd (o : option object3d)
| SceneRemove (o : option object3d)
| ControllerAttach (c : controller) (o : object3d)
| ControllerRemove (c : controller) (o : option object3d)
| UpdateOnRender (key : string)
| Update (key : string) (intersections : list N)
| Move (key : string)
| RenderRejected (reason : error)             (* the promise of [render] rejects *)
| ListenerThrew (reason : error).

#[global] Instance effect_eq_dec : EqDecision effect.
Proof. solve_decision. Defined.

Record App : Type := {
  session : option XRSession;                 (* [renderer.xr.getSession()] *)
  videos : list (string * Video);             (* [this.videos] *)
  mediaLayers : list (string * MediaLayer);   (* [this.mediaLayers] *)
  isToolbarVisible : option (gmap string bool);
                                              (* [scene.userData.isToolbarVisible] *)
  scene : gmap object3d node;
  pending : list continuation;
  log : list effect;
}.

Definition set_session (s : option XRSession) (a : App) : App :=
  {| session := s; videos := videos a; mediaLayers := mediaLayers a;
     isToolbarVisible := isToolbarVisible a; scene := scene a;
     pending := pending a; log := log a |}.
Definition set_videos (vs : list (string * Video)) (a : App) : App :=
  {| session := session a; videos := vs; mediaLayers := mediaLayers a;
     isToolbarVisible := isToolbarVisible a; scene := scene a;
     pending := pending a; log := log a |}.
Definition set_mediaLayers (ms : list (string * MediaLayer)) (a : App) : App :=
  {| session := session a; videos := videos a; mediaLayers := ms;
     isToolbarVisible := isToolbarVisible a; scene := scene a;
     pending := pending a; log := log a |}.
Definition set_isToolbarVisible (m : option (gmap string bool)) (a : App) : App :=
  {| session := session a; videos := videos a; mediaLayers := mediaLayers a;
     isToolbarVisible := m; scene := scene a;
     pending := pending a; log := log a |}.
Definition set_scene (g : gmap object3d node) (a : App) : App :=
  {| session := session a; videos := videos a; mediaLayers := mediaLayers a;
     isToolbarVisible := isToolbarVisible a; scene := g;
     pending := pending a; log := log a |}.
Definition set_pending (ks : list continuation) (a : App) : App :=
  {| session := session a; videos := videos a; mediaLayers := mediaLayers a;
     isToolbarVisible := isToolbarVisible a; scene := scene a;
     pending := ks; log := log a |}.
Definition emit (e : effect) (a : App) : App :=
  {| session := session a; videos := videos a; mediaLayers := mediaLayers a;
     isToolbarVisible := isToolbarVisible a; scene := scene a;
     pending := pending a; log := log a ++ [e] |}.

(** *** Methods that may throw: state passing with an exception.
    The state reached when the exception is raised is kept. *)

Definition M (A : Type) : Type := App → (A + error) * App.

Definition ret {A} (x : A) : M A := λ a, (inl x, a).
Definition throw {A} (e : error) : M A := λ a, (inr e, a).
Definition bind {A B} (f : A → M B) (m : M A) : M B :=
  λ a, match m a with
       | (inl x, a') => f x a'
       | (inr e, a') => (inr e, a')
       end.
Definition gets {A} (f : App → A) : M A := λ a, (inl (f a), a).
Definition modify (f : App → App) : M unit := λ a, (inl tt, f a).

(** The notations [x ← m; k] and [m;; k] below are those of these
    instances. *)
#[global] Instance M_ret : MRet M := @ret.
#[global] Instance M_bind : MBind M := @bind.

(** [map.forEach((value, key) => ...)] and [for (const x of xs)]. *)
Fixpoint forEach {A} (f : A → string → M unit) (m : list (string * A)) : M unit :=
  match m with
  | [] => mret tt
  | (k, x) :: m' => f x k;; forEach f m'
  end.

Fixpoint forOf {A} (f : A → M unit) (xs : list A) : M unit :=
  match xs with
  | [] => mret tt
  | x :: xs' => f x;; forOf f xs'
  end.

(** A [forEach] whose body assigns one local variable. *)
Fixpoint forEachAssign {A B} (f : B → A → string → M B) (b : B)
    (m : list (string * A)) : M B :=
  match m with
  | [] => mret b
  | (k, x) :: m' => b' ← f b x k; forEachAssign f b' m'
  end.

(** [this.scene.userData.isToolbarVisible[layerKey]], read for its truth
    value: a missing entry is falsy, a missing dictionary is a TypeError. *)
Definition read_visible (layerKey : string) : M bool :=
  λ a, match isToolbarVisible a with
       | Some m => (inl (default false (m !! layerKey)), a)
       | None => (inr (TypeError "isToolbarVisible is undefined"), a)
       end.

(** [this.scene.userData.isToolbarVisible[layerKey] = b]. *)
Definition write_visible (layerKey : string) (b : bool) : M unit :=
  λ a, match isToolbarVisible a with
       | Some m => (inl tt, set_isToolbarVisible (Some (<[layerKey := b]> m)) a)
       | None => (inr (TypeError "isToolbarVisible is undefined"), a)
       end.

Definition scene_add (o : option object3d) : M unit :=
  modify (λ a, emit (SceneAdd o) (set_scene (add Scene o (scene a)) a)).
Definition scene_remove (o : option object3d) : M unit :=
  modify (λ a, emit (SceneRemove o) (set_scene (remove Scene o (scene a)) a)).

(** [controller.attach(o)] reads [o.parent] first. *)
Definition controller_attach (c : controller) (o : option object3d) : M unit :=
  match o with
  | Some o =>
      modify (λ a, emit (ControllerAttach c o)
                        (set_scene (add (Ctrl c) (Some o) (scene a)) a))
  | None => throw (TypeError "object is undefined")
  end.
Definition controller_remove (c : controller) (o : option object3d) : M unit :=
  modify (λ a, emit (ControllerRemove c o)
                    (set_scene (remove (Ctrl c) o (scene a)) a)).

(** The constructor; [videoIn] is the address both videos are loaded from. *)
Definition createVideo (videoIn : string) : Video :=
  {| src := videoIn; readyState := 0 |}.

Definition constructor (videoIn : string) : App :=
  {| session := None;
     videos := [("equirect", createVideo videoIn); ("quad", createVideo videoIn)];
     mediaLayers := [];
     isToolbarVisible := None;
     scene := ∅;
     pending := [];
     log := [] |}.

(** The ray of a controller against a list of objects: what
    [raycaster.intersectObjects(objects)] returns, nearest first. *)
Definition raycast : Type := controller → list N → list N.

(** The function given to [forEach] in [handleToolbarIntersections]; it
    assigns [areAllToolbarsHidden]. *)
Definition checkHidden (areAllToolbarsHidden : bool) (_ : MediaLayer)
    (layerKey : string) : M bool :=
  v ← read_visible layerKey;
  mret (if v : bool then false else areAllToolbarsHidden).

(** [handleToolbarIntersections(controller, objects)]; [None] is
    [undefined]. *)
Definition handleToolbarIntersections (controller : controller)
    (objects : option (list N)) (cast : raycast) : M (option (list N)) :=
  match objects with
  | None => mret None
  | Some objects =>
      let intersections := cast controller objects in
      ms ← gets mediaLayers;
      areAllToolbarsHidden ←
        forEachAssign (λ acc (_ : MediaLayer) layerKey,
                         v ← read_visible layerKey;
                         mret (if v : bool then false else acc)) true ms;
      if areAllToolbarsHidden : bool then
        g ← gets scene;
        scene_remove (getIntersectPoint controller g);;
        mret None
      else
        (if (0 <? length intersections)%nat
         then scene_add (Some (IntersectPoint controller))
         else mret tt);;
        mret (Some intersections)
  end.

(** The function given to [forEach] in [handleSelectStart]. *)
Definition selectStartLayer (controller : controller) (cast : raycast)
    (layerObj : MediaLayer) (layerKey : string) : M unit :=
  v ← read_visible layerKey;
  if negb (v : bool) then
    write_visible layerKey true;;
    scene_add (Some (Obj (toolbarGroup layerObj)));;
    if glassLayer layerObj
    then scene_add (Obj <$> glass layerObj)
    else mret tt
  else
    r ← handleToolbarIntersections controller (Some (objects layerObj)) cast;
    match r with
    | None => throw (TypeError "intersections is undefined")
    | Some intersections =>
        if (length intersections =? 0)%nat then
          write_visible layerKey false;;
          scene_remove (Some (Obj (toolbarGroup layerObj)));;
          scene_remove (Obj <$> glass layerObj)
        else
          modify (emit (Update layerKey intersections));;
          if glassLayer layerObj
          then controller_attach controller (Obj <$> glass layerObj)
          else mret tt
    end.

(** [handleSelectStart(controller)]. *)
Definition handleSelectStart (controller : controller) (cast : raycast) : M unit :=
  ms ← gets mediaLayers;
  forEach (selectStartLayer controller cast) ms.

(** The function given to [forEach] in [handleSelectEnd]. *)
Definition selectEndLayer (controller : controller)
    (layerObj : MediaLayer) (layerKey : string) : M unit :=
  if glassLayer layerObj then
    modify (emit (Move layerKey));;
    controller_remove controller (Obj <$> glass layerObj)
  else mret tt.

(** [handleSelectEnd(controller)]. *)
Definition handleSelectEnd (controller : controller) : M unit :=
  ms ← gets mediaLayers;
  forEach (selectEndLayer controller) ms.

(** [hideToolbars()]. *)
Definition hideToolbars : M unit :=
  m ← gets isToolbarVisible;
  (if m is None then modify (set_isToolbarVisible (Some ∅)) else mret tt);;
  ms ← gets mediaLayers;
  forEach (λ (_ : MediaLayer) layerName, write_visible layerName false) ms.

(** [this.toolbarGroup]: no statement of this class assigns it. *)
Definition this_toolbarGroup (a : App) : option object3d := None.

(** The [disconnected] listener installed by [setupVR()]. *)
Definition onDisconnected (c : controller) : M unit :=
  o ← gets this_toolbarGroup;
  scene_remove o.

(** [isVideosReady], as [render] computes it. *)
Definition isVideosReady (vs : list (string * Video)) : bool :=
  fold_left (λ ready kv, if negb (readyState kv.2 =? 4)%nat then false else ready)
            vs true.

(** The guard of [render()]:
    [session && session.renderState.layers && !session.hasMediaLayer &&
     isVideosReady]. *)
Definition bootstrap_guard (a : App) : bool :=
  match session a with
  | Some s =>
      bool_decide (is_Some (layers s)) && negb (hasMediaLayer s) &&
      isVideosReady (videos a)
  | None => false
  end.

(** The body of the loop over the controllers in [render()]. *)
Definition renderController (cast : raycast) (controller : controller) : M unit :=
  ms ← gets mediaLayers;
  let objects := concat (objects <$> ms.*2) in
  _ ← handleToolbarIntersections controller (Some objects) cast;
  mret tt.

(** The error raised by a call of [mediaFactory.createMediaLayer]. *)
Definition no_createMediaLayer : error :=
  TypeError "mediaFactory.createMediaLayer is not a function".

(** The bootstrap in [render()], from the assignment of the flag to the
    first [await].  [mediaFactory.createMediaLayer(...)] is looked up on an
    instance of [MediaLayerManager]: the class has no member of that name,
    so the call raises a TypeError, after the flag is set and before
    anything is awaited.  (Were it a method, the call would be made and
    [render] suspended on its promise.) *)
Definition startBootstrap : M unit :=
  modify (λ a, set_session (mark_media_layer <$> session a) a);;
  modify (emit EnterBootstrap);;
  if MediaLayerManager.is_method "createMediaLayer" then
    modify (emit (CreateMediaLayer "equirect"
                    (MediaLayerManager.class_get "EQUIRECT_LAYER")));;
    modify (λ a, set_pending (pending a ++ [AwaitEquirect]) a)
  else throw no_createMediaLayer.

(** [if (xr.isPresenting) this.mediaLayers.forEach(...)] in [render()]. *)
Definition updateLayers (presenting : bool) : M unit :=
  if presenting then
    ms ← gets mediaLayers;
    forEach (λ (_ : MediaLayer) key, modify (emit (UpdateOnRender key))) ms
  else mret tt.

(** [render()] up to its first [await]. *)
Definition render_body (presenting : bool) (cast : raycast) : M unit :=
  updateLayers presenting;;
  forOf (renderController cast) controllers;;
  guard ← gets bootstrap_guard;
  if guard : bool then startBootstrap else mret tt.

(** Running a method as a listener or as an [async] function: an exception
    ends it, with the state as it was when raised. *)
Definition as_listener (m : M unit) (a : App) : App :=
  match m a with
  | (inl _, a') => a'
  | (inr e, a') => emit (ListenerThrew e) a'
  end.

Definition as_async (m : M unit) (a : App) : App :=
  match m a with
  | (inl _, a') => a'
  | (inr e, a') => emit (RenderRejected e) a'
  end.

Definition render (presenting : bool) (cast : raycast) : App → App :=
  as_async (render_body presenting cast).

(** [render] after [await createMediaLayer(... EQUIRECT_LAYER ...)]. *)
Definition afterEquirect (i : nat) (equirect : MediaLayer) : M unit :=
  modify (λ a, set_mediaLayers (JsMap.set "equirect" equirect (mediaLayers a)) a);;
  modify (emit (CreateMediaLayer "quad"
                  (MediaLayerManager.class_get "QUAD_LAYER")));;
  modify (λ a, set_pending (<[i := AwaitQuad equirect]> (pending a)) a).

(** [render] after [await createMediaLayer(... QUAD_LAYER ...)]. *)
Definition afterQuad (i : nat) (equirect quad : MediaLayer) : M unit :=
  modify (λ a, set_pending (delete i (pending a)) a);;
  modify (λ a, set_mediaLayers (JsMap.set "quad" quad (mediaLayers a)) a);;
  hideToolbars;;
  s ← gets session;
  let ls := [layer equirect; layer quad; first_layer (s ≫= layers)] in
  modify (λ a, set_session (updateRenderState ls <$> session a) a);;
  modify (emit (UpdateRenderState ls));;
  vs ← gets videos;
  forEach (λ (_ : Video) key, modify (emit (Play key))) vs.

(** The promise the [i]-th suspended call waits for settles. *)
Definition settle (i : nat) (r : settled MediaLayer) (a : App) : App :=
  match pending a !! i with
  | None => a
  | Some k =>
      match r, k with
      | Rejected e, _ =>
          emit (RenderRejected e) (set_pending (delete i (pending a)) a)
      | Resolved equirect, AwaitEquirect =>
          as_async (afterEquirect i equirect) a
      | Resolved quad, AwaitQuad equirect =>
          as_async (afterQuad i equirect quad) a
      end
  end.

(** The video element stored under [key] reaches readiness level [rs]. *)
Definition load (key : string) (rs : nat) (a : App) : App :=
  set_videos
    ((λ kv : string * Video,
        if decide (kv.1 = key)
        then (kv.1, {| src := src kv.2; readyState := rs |})
        else kv) <$> videos a) a.

(** What happens to the application. *)
Inductive event : Type :=
| SessionStart (ls : option (list value))    (* an XR session begins *)
| VideoChange (key : string) (rs : nat)      (* a video element loads *)
| Frame (presenting : bool) (cast : raycast) (* the animation loop calls [render] *)
| Settle (i : nat) (r : settled MediaLayer)  (* a [createMediaLayer] promise settles *)
| SelectStart (c : controller) (cast : raycast)
| SelectEnd (c : controller)
| Disconnected (c : controller).

Definition step (a : App) (e : event) : App :=
  match e with
  | SessionStart ls =>
      match session a with
      | None => set_session (Some (fresh_session ls)) a
      | Some _ => a
      end
  | VideoChange key rs => load key rs a
  | Frame presenting cast => render presenting cast a
  | Settle i r => settle i r a
  | SelectStart c cast => as_listener (handleSelectStart c cast) a
  | SelectEnd c => as_listener (handleSelectEnd c) a
  | Disconnected c => as_listener (onDisconnected c) a
  end.

Definition run (evs : list event) (a : App) : App := fold_left step evs a.

(** *** Vocabulary of the properties *)

(** The operation an effect performs on object [o], if any. *)
Definition scene_op_of (o : object3d) (e : effect) : option scene_op :=
  match e with
  | SceneAdd (Some o') => if decide (o' = o) then Some Added else None
  | SceneRemove (Some o') => if decide (o' = o) then Some Removed else None
  | _ => None
  end.

Definition scene_ops (o : object3d) (l : list effect) : list scene_op :=
  omap (scene_op_of o) l.

(** The effects of the bootstrap: entering its body, the factory calls, the
    publication of the layer list and the start of playback. *)
Definition bootstrap_effect (e : effect) : bool :=
  match e with
  | EnterBootstrap | CreateMediaLayer _ _ | UpdateRenderState _ | Play _ => true
  | _ => false
  end.

Definition bootstrap_log (l : list effect) : list effect :=
  filter bootstrap_effect l.

Definition bootstraps (l : list effect) : nat :=
  length (filter (λ e, e = EnterBootstrap) l).

Definition plays (key : string) (l : list effect) : nat :=
  length (filter (λ e, e = Play key) l).

(** The layer lists given to [updateRenderState], in order. *)
Definition published (l : list effect) : list (list value) :=
  omap (λ e, match e with UpdateRenderState ls => Some ls | _ => None end) l.

(** [session.hasMediaLayer], falsy when there is no session. *)
Definition flag (a : App) : bool :=
  match session a with
  | Some s => hasMediaLayer s
  | None => false
  end.

(** The truth value of [isToolbarVisible[key]]. *)
Definition visible (key : string) (a : App) : bool :=
  match isToolbarVisible a with
  | Some m => default false (m !! key)
  | None => false
  end.

(** The entry [isToolbarVisible[key]], if there is one. *)
Definition entry (key : string) (a : App) : option bool :=
  isToolbarVisible a ≫= (.!! key).

(** A layer that has a glass layer has its overlay. *)
Definition layers_wf (ms : list (string * MediaLayer)) : bool :=
  forallb (λ kl : string * MediaLayer,
             implb (glassLayer kl.2) (bool_decide (is_Some (glass kl.2)))) ms.

(** [a'] differs from [a] by toolbar interaction only: the session, the
    videos, the media layers and the suspended calls are the same, the
    dictionary of visibility exists in both or in neither, and what the log
    gained is no effect of the bootstrap. *)
Definition same_boot (a a' : App) : Prop :=
  session a' = session a ∧ videos a' = videos a ∧
  mediaLayers a' = mediaLayers a ∧ pending a' = pending a ∧
  (is_Some (isToolbarVisible a') ↔ is_Some (isToolbarVisible a)) ∧
  ∃ l', log a' = log a ++ l' ∧ bootstrap_log l' = [].

(** [a'] differs from [a] in nothing that concerns layer [key] and the
    object [t]. *)
Definition keeps (key : string) (t : N) (a a' : App) : Prop :=
  visible key a' = visible key a ∧
  scene a' !! Obj t = scene a !! Obj t ∧
  ∃ l', log a' = log a ++ l' ∧ scene_ops (Obj t) l' = [].

(** A computation whose final state is related to its initial state. *)
Definition respects {A} (R : App → App → Prop) (m : M A) : Prop :=
  ∀ a, R a (m a).2.

(** The promises of [render] that rejected and the listeners that threw,
    as the log has them. *)
Definition is_error (e : effect) : bool :=
  match e with
  | RenderRejected _ | ListenerThrew _ => true
  | _ => false
  end.

Definition errors (l : list effect) : list effect := filter is_error l.

(** What the application is like in every run from its constructor: no
    call of [render] is suspended, no media layer is stored, the dictionary
    of visibility does not exist, nothing was put into the scene graph; the
    bootstrap was entered if and only if the flag of the session is set, and
    then it did nothing but raise the TypeError of [startBootstrap], the
    only error of the run. *)
Definition inert (a : App) : Prop :=
  pending a = [] ∧ mediaLayers a = [] ∧ isToolbarVisible a = None ∧
  scene a = ∅ ∧
  bootstrap_log (log a) = (if flag a then [EnterBootstrap] else []) ∧
  errors (log a) = (if flag a then [RenderRejected no_createMediaLayer] else []).

(** Some tracked video is short of readiness level 4. *)
Definition some_video_not_ready (a : App) : Prop :=
  ∃ key v, (key, v) ∈ videos a ∧ readyState v ≠ 4%nat.

(** [a'] has the dictionary of visibility and the media layers of [a]. *)
Definition same_marks (a a' : App) : Prop :=
  isToolbarVisible a' = isToolbarVisible a ∧ mediaLayers a' = mediaLayers a.

(** An event that is neither a select-start nor the settlement of a factory
    promise. *)
Definition leaves_marks (e : event) : bool :=
  match e with
  | SelectStart _ _ | Settle _ _ => false
  | _ => true
  end.

(** The toolbars of all the layers are hidden. *)
Definition all_hidden (a : App) : bool :=
  forallb (λ kl : string * MediaLayer, negb (visible kl.1 a)) (mediaLayers a).

(** The objects [render] gives to [handleToolbarIntersections]. *)
Definition all_objects (a : App) : list N :=
  concat (objects <$> (mediaLayers a).*2).

(** What [handleSelectEnd] logs for one layer. *)
Definition select_end_calls (c : controller) (kl : string * MediaLayer)
  : list effect :=
  if glassLayer kl.2
  then [Move kl.1; ControllerRemove c (Obj <$> glass kl.2)]
  else [].

(** [g'] is [g] with some children of controller [c] taken off the graph. *)
Definition only_detaches (c : controller) (g g' : gmap object3d node) : Prop :=
  ∀ o, g' !! o = g !! o ∨ (g !! o = Some (Ctrl c) ∧ g' !! o = None).

(** The overlay [o] belongs to layer [key] alone and is no toolbar group. *)
Definition overlay_private (key : string) (o : N)
    (ms : list (string * MediaLayer)) : bool :=
  forallb (λ kl : string * MediaLayer,
             bool_decide (toolbarGroup kl.2 ≠ o) &&
             (bool_decide (glass kl.2 ≠ Some o) || bool_decide (kl.1 = key)))
          ms.

End MultipleLayers.

(** ** Concrete scenarios

    Two media layers, a session with one base layer, the events that make
    the multi-layer application ready for its bootstrap, and states on
    which to run its handlers. *)

Module Scenario.
Import Three MultipleLayers.

Definition equirectLayer : MediaLayer :=
  {| layer := VRef 10; toolbarGroup := 11; glassLayer := false; glass := None;
     objects := [12; 13]%N |}.

Definition quadLayer : MediaLayer :=
  {| layer := VRef 20; toolbarGroup := 21; glassLayer := true; glass := Some 24%N;
     objects := [22; 23]%N |}.

Definition baseLayer : value := VRef 1.

(** A ray that hits nothing, and one that hits every object it is tried on. *)
Definition miss : raycast := λ _ _, [].
Definition hit_all : raycast := λ _ os, os.

Definition videoIn : string := "sloths.mp4".

(** A session begins and both videos load completely. *)
Definition ready : list event :=
  [SessionStart (Some [baseLayer]); VideoChange "equirect" 4; VideoChange "quad" 4].

(** The states below are those the handlers of the multi-layer application
    are written for.  They are given directly: no run from the constructor
    stores a media layer (see [startBootstrap]). *)

Definition loaded : list (string * Video) :=
  [("equirect", {| src := videoIn; readyState := 4 |});
   ("quad", {| src := videoIn; readyState := 4 |})].

(** The equirect layer is stored and the dictionary of visibility does not
    exist yet: where [render] would stand between its two [await]s. *)
Definition half_stored : App :=
  {| session := Some {| hasMediaLayer := true; layers := Some [baseLayer] |};
     videos := loaded;
     mediaLayers := [("equirect", equirectLayer)];
     isToolbarVisible := None;
     scene := ∅;
     pending := [];
     log := [] |}.

(** Both layers are stored and their toolbars hidden: where the bootstrap
    would end. *)
Definition stored : App :=
  {| session := Some {| hasMediaLayer := true;
                        layers := Some [layer equirectLayer; layer quadLayer;
                                        baseLayer] |};
     videos := loaded;
     mediaLayers := [("equirect", equirectLayer); ("quad", quadLayer)];
     isToolbarVisible := Some (<["quad" := false]> (<["equirect" := false]> ∅));
     scene := ∅;
     pending := [];
     log := [] |}.

(** ... then a select-start shows both toolbars, *)
Definition shown : App := step stored (SelectStart Controller0 miss).

(** ... and a second one, hitting them, attaches the overlay of the quad
    layer to the first controller. *)
Definition dragging : App := step shown (SelectStart Controller0 hit_all).

(** The single-layer application with a session and a video that has only
    its metadata (readiness level 1). *)
Definition metadata_only : list SingleLayer.event :=
  [SingleLayer.SessionStart (Some [baseLayer]);
   SingleLayer.VideoChange
     {| SingleLayer.readyState := 1; SingleLayer.currentTime := 0;
        SingleLayer.duration := 120 |}].

End Scenario.
(** * Properties *)

(** ** Traces of scene operations *)

Section SceneOps.

Lemma last_added_cons added op ops :
  last_added added (op :: ops) = last_added (bool_decide (op = Added)) ops.
Proof.
  unfold last_added. destruct ops as [|op' ops]; [by destruct op|].
  rewrite last_cons_cons.
  destruct (last (op' :: ops)) as [[]|] eqn:E; try done.
  by apply last_None in E.
Qed.

Lemma no_double_add_snoc added ops x :
  no_double_add added (ops ++ [x])
  = no_double_add added ops &&
    match x with Added => negb (last_added added ops) | Removed => true end.
Proof.
  revert added. induction ops as [|op ops IH]; intros added.
  - destruct x; cbn; by rewrite ?andb_true_r.
  - destruct op; cbn [no_double_add app].
    + by rewrite IH, <- andb_assoc, last_added_cons.
    + by rewrite IH, last_added_cons.
Qed.

Lemma last_added_snoc added ops x :
  last_added added (ops ++ [x]) = bool_decide (x = Added).
Proof. unfold last_added. rewrite last_snoc. by destruct x. Qed.

Lemma last_added_nil added : last_added added [] = added.
Proof. reflexivity. Qed.

End SceneOps.

(** ** [MediaLayerManager.createLayer] *)

Module MediaLayerManagerFacts.
Import MediaLayerManager.

Section WithInstance.
Variables (session mediaFactory : N) (h : host).
Variables (video : value) (options : gmap string value).

Lemma this_QUAD_LAYER : this_get session mediaFactory "QUAD_LAYER" = VUndefined.
Proof. reflexivity. Qed.

Lemma this_EQUIRECT_LAYER :
  this_get session mediaFactory "EQUIRECT_LAYER" = VUndefined.
Proof. reflexivity. Qed.

Lemma class_QUAD_LAYER : class_get "QUAD_LAYER" = VString "QUAD_LAYER".
Proof. reflexivity. Qed.

Lemma class_EQUIRECT_LAYER : class_get "EQUIRECT_LAYER" = VString "EQUIRECT_LAYER".
Proof. reflexivity. Qed.

(** The check compares the layer type with [undefined] twice: every
    layer type other than [undefined] is rejected before any call is
    made, the two documented ones included. *)
Lemma createLayer_defined_rejected layerType :
  layerType ≠ VUndefined →
  createLayer session mediaFactory h video layerType options
  = ([], Rejected InvalidLayerType).
Proof.
  intros Hdef. unfold createLayer.
  rewrite this_QUAD_LAYER, this_EQUIRECT_LAYER.
  unfold strict_neq. by rewrite bool_decide_eq_true_2.
Qed.

Lemma createLayer_QUAD_LAYER_rejected :
  createLayer session mediaFactory h video (class_get "QUAD_LAYER") options
  = ([], Rejected InvalidLayerType).
Proof. by apply createLayer_defined_rejected. Qed.

Lemma createLayer_EQUIRECT_LAYER_rejected :
  createLayer session mediaFactory h video (class_get "EQUIRECT_LAYER") options
  = ([], Rejected InvalidLayerType).
Proof. by apply createLayer_defined_rejected. Qed.

(** C1, at the layer type [undefined], which is neither ["QUAD_LAYER"] nor
    ["EQUIRECT_LAYER"]: [createLayer] does not fail with the
    invalid-layer-type error.  It asks the session for a reference space
    and, when the session grants it, resolves to [undefined] without
    creating a layer. *)
Theorem createLayer_undefined_requests_reference_space :
  VUndefined ≠ VString QUAD_LAYER ∧ VUndefined ≠ VString EQUIRECT_LAYER ∧
  createLayer session mediaFactory h video VUndefined options
  = ([RequestReferenceSpace "local"],
     match requestReferenceSpace h "local" with
     | Resolved _ => Resolved VUndefined
     | Rejected e => Rejected e
     end).
Proof.
  split; [done|split; [done|]].
  unfold createLayer. rewrite this_QUAD_LAYER, this_EQUIRECT_LAYER.
  cbn. by destruct (requestReferenceSpace h "local").
Qed.
End WithInstance.

End MediaLayerManagerFacts.

(** ** The single-layer application *)

Module SingleLayerFacts.
Import Three SingleLayer.

(** *** The progress bar *)

Section ProgressBar.
Local Open Scope Q_scope.

Variable a : App.
Hypothesis duration_pos : 0 < duration (video a).

Lemma duration_nonzero : ¬ duration (video a) == 0.
Proof.
  intros E. rewrite E in duration_pos. exact (Qlt_irrefl 0 duration_pos).
Qed.

Lemma played_scale :
  scale_x (redProgressBar (updateProgressBar a))
  == currentTime (video a) / duration (video a) * 2.
Proof. reflexivity. Qed.

Lemma remaining_scale :
  scale_x (whiteProgressBar (updateProgressBar a))
  == 2 - scale_x (redProgressBar (updateProgressBar a)).
Proof. reflexivity. Qed.

Lemma fraction_bounds :
  0 <= currentTime (video a) <= duration (video a) →
  0 <= currentTime (video a) / duration (video a) <= 1.
Proof.
  intros [H0 H1]. split.
  - apply Qle_shift_div_l; [done|]. lra.
  - apply Qle_shift_div_r; [done|]. lra.
Qed.

End ProgressBar.

(** C6: after [updateProgressBar], for a video with [duration > 0] and
    [currentTime] in [[0, duration]]: the played (red) bar has scale
    [(currentTime / duration) * 2], the remaining (white) bar has scale
    [2 - played], the two scales add up to the width 2 of the bar, the red
    bar starts at the left end [-1] of the bar, the white bar ends at its
    right end [1], and the white bar starts where the red one ends. *)
Theorem progress_bar_scales_add_up (a : App) :
  (0 < duration (video a))%Q →
  (0 <= currentTime (video a) <= duration (video a))%Q →
  let red := redProgressBar (updateProgressBar a) in
  let white := whiteProgressBar (updateProgressBar a) in
  (scale_x red == currentTime (video a) / duration (video a) * 2 ∧
   scale_x white == 2 - scale_x red ∧
   scale_x red + scale_x white == 2 ∧
   0 <= scale_x red ∧ 0 <= scale_x white ∧
   left_edge red == -1 ∧
   right_edge white == 1 ∧
   right_edge red == left_edge white)%Q.
Proof.
  intros Hd Hct red white.
  destruct (fraction_bounds a Hd Hct) as [Hf0 Hf1].
  pose proof (duration_nonzero a Hd) as Hnz.
  subst red white.
  unfold left_edge, right_edge, geometryWidth, updateProgressBar.
  cbn [redProgressBar whiteProgressBar set_bars scale_x position_x].
  set (f := (currentTime (video a) / duration (video a))%Q) in *.
  repeat split; try lra; try (field; done).
Qed.

Lemma progress_bar_scales_add_up_witness :
  let a := set_video {| readyState := 4; currentTime := 30; duration := 120 |}
                     constructor in
  (scale_x (redProgressBar (updateProgressBar a))
   + scale_x (whiteProgressBar (updateProgressBar a)) == 2)%Q.
Proof.
  intros a.
  refine (proj1 (proj2 (proj2 (progress_bar_scales_add_up a _ _)))).
  - reflexivity.
  - split; discriminate.
Defined.

(** C7: scrubbing at [x] in [[-1, 1]] on a video with [duration > 0] sets
    [currentTime] to [((x + 1) / 2) * duration], a time within the video,
    and the update of the progress bar that follows gives the played bar
    the scale [x + 1]. *)
Theorem scrub_then_update_round_trip (a : App) (x : Q) :
  (0 < duration (video a))%Q →
  (-1 <= x <= 1)%Q →
  let a' := setVideoCurrentTime x a in
  (currentTime (video a') == (x + 1) / 2 * duration (video a) ∧
   duration (video a') = duration (video a) ∧
   0 <= currentTime (video a') <= duration (video a') ∧
   scale_x (redProgressBar (updateProgressBar a')) == x + 1)%Q.
Proof.
  intros Hd [Hx0 Hx1] a'.
  pose proof (duration_nonzero a Hd) as Hnz.
  subst a'. unfold setVideoCurrentTime, updateProgressBar.
  cbn [video set_video set_bars redProgressBar scale_x currentTime duration].
  split; [field|]. split; [done|]. split; [|field; done].
  split.
  - apply Qmult_le_0_compat; [|lra].
    apply Qle_shift_div_l; [done|]. lra.
  - rewrite <- (Qmult_1_l (duration (video a))) at 2.
    apply Qmult_le_compat_r; [|lra].
    apply Qle_shift_div_r; [done|]. lra.
Qed.

Lemma scrub_then_update_round_trip_witness :
  let a := set_video {| readyState := 4; currentTime := 0; duration := 120 |}
                     constructor in
  (scale_x (redProgressBar (updateProgressBar (setVideoCurrentTime (1 # 2) a)))
   == (1 # 2) + 1)%Q.
Proof.
  intros a.
  refine (proj2 (proj2 (proj2 (scrub_then_update_round_trip a (1 # 2) _ _)))).
  - reflexivity.
  - split; discriminate.
Defined.

(** *** Logs *)

Ltac single_simpl :=
  cbn [log session video isToolbarVisible scene pending redProgressBar
       whiteProgressBar emit set_session set_video set_isToolbarVisible
       set_scene set_bars set_pending scene_add scene_remove
       updateProgressBar setVideoCurrentTime onDisconnected] in *.

Lemma single_bootstraps_app l l' : bootstraps (l ++ l') = (bootstraps l + bootstraps l')%nat.
Proof. unfold bootstraps. by rewrite filter_app, length_app. Qed.

Lemma single_scene_ops_app o l l' : scene_ops o (l ++ l') = scene_ops o l ++ scene_ops o l'.
Proof. apply omap_app. Qed.

Lemma single_run_app evs1 evs2 a : run (evs1 ++ evs2) a = run evs2 (run evs1 a).
Proof. apply fold_left_app. Qed.

(** *** What each event does to the flag, the mark, the scene and the log *)

Lemma guard_flag a : bootstrap_guard a = true → flag a = false.
Proof.
  unfold bootstrap_guard, flag. destruct (session a) as [s|]; [|done].
  intros H. apply andb_prop in H as [H _]. apply andb_prop in H as [_ H].
  by destruct (hasMediaLayer s).
Qed.

Lemma single_render_guard_true a :
  bootstrap_guard a = true →
  flag (render a) = true ∧
  pending (render a) = S (pending a) ∧
  isToolbarVisible (render a) = isToolbarVisible a ∧
  scene (render a) = scene a ∧
  log (render a) = log a ++ [EnterBootstrap; RequestReferenceSpace "local"].
Proof.
  intros Hg. unfold render.
  change (bootstrap_guard (updateProgressBar a)) with (bootstrap_guard a).
  rewrite Hg. single_simpl.
  unfold bootstrap_guard in Hg. unfold flag. single_simpl.
  destruct (session a) as [s|]; [|done].
  repeat split. by rewrite <- app_assoc.
Qed.

Lemma single_render_guard_false a :
  bootstrap_guard a = false → render a = updateProgressBar a.
Proof.
  intros Hg. unfold render.
  change (bootstrap_guard (updateProgressBar a)) with (bootstrap_guard a).
  by rewrite Hg.
Qed.

Lemma session_start_spec a ls :
  let a' := step a (SessionStart ls) in
  flag a' = flag a ∧ isToolbarVisible a' = isToolbarVisible a ∧
  scene a' = scene a ∧ log a' = log a.
Proof.
  cbn [step]. unfold flag. destruct (session a) eqn:E; single_simpl; by rewrite ?E.
Qed.

Lemma settle_spec a r l :
  let a' := settle r l a in
  flag a' = flag a ∧ isToolbarVisible a' = isToolbarVisible a ∧
  scene a' = scene a ∧
  ∃ l', log a' = log a ++ l' ∧ bootstraps l' = 0%nat ∧
        scene_ops toolbarGroup l' = [].
Proof.
  unfold settle. destruct (pending a) as [|n].
  { repeat split. exists []. by rewrite app_nil_r. }
  destruct r as [refSpace|err].
  - unfold onReferenceSpace, flag. single_simpl. repeat split.
    + by destruct (session a).
    + eexists. rewrite <- !app_assoc. split; [reflexivity|]. by split.
  - single_simpl. repeat split. eexists. by split.
Qed.

Lemma select_start_spec a c hits :
  let a' := handleToolbarIntersection c hits a in
  flag a' = flag a ∧
  if isToolbarVisible a then
    if (length hits =? 0)%nat then
      isToolbarVisible a' = false ∧
      scene a' = remove Scene (Some toolbarGroup) (scene a) ∧
      log a' = log a ++ [SceneRemove (Some toolbarGroup)]
    else
      isToolbarVisible a' = true ∧ scene a' = scene a ∧ log a' = log a
  else
    isToolbarVisible a' = true ∧
    scene a' = add Scene (Some toolbarGroup) (scene a) ∧
    log a' = log a ++ [SceneAdd (Some toolbarGroup)].
Proof.
  unfold handleToolbarIntersection.
  destruct (isToolbarVisible a) eqn:Hv; cbn [negb]; [|done].
  destruct (length hits =? 0)%nat; destruct (List.find isProgressBar hits);
    single_simpl; by rewrite ?Hv.
Qed.

(** *** The bootstrap is entered once *)

Lemma bootstrap_inv_constructor : bootstrap_inv constructor.
Proof. reflexivity. Qed.

Lemma bootstrap_inv_step a e : bootstrap_inv a → bootstrap_inv (step a e).
Proof.
  unfold bootstrap_inv. intros I. destruct e as [ls|v| |r l|c hits|c].
  - destruct (session_start_spec a ls) as (-> & _ & _ & ->). done.
  - done.
  - cbn [step]. destruct (bootstrap_guard a) eqn:Hg.
    + destruct (single_render_guard_true a Hg) as (Hf & _ & _ & _ & Hl).
      rewrite Hf, Hl, single_bootstraps_app, I, (guard_flag a Hg). reflexivity.
    + by rewrite single_render_guard_false.
  - cbn [step]. destruct (settle_spec a r l) as (-> & _ & _ & l' & -> & Hb & _).
    rewrite single_bootstraps_app, Hb, I. destruct (flag a); reflexivity.
  - cbn [step]. destruct (select_start_spec a c hits) as [-> H].
    destruct (isToolbarVisible a); [destruct (length hits =? 0)%nat|];
      destruct H as (_ & _ & ->); rewrite ?single_bootstraps_app, I;
      destruct (flag a); reflexivity.
  - cbn [step]. single_simpl. rewrite single_bootstraps_app, I. unfold flag. single_simpl.
    destruct (session a) as [[[] ?]|]; reflexivity.
Qed.

Lemma bootstrap_inv_run evs a : bootstrap_inv a → bootstrap_inv (run evs a).
Proof.
  revert a. induction evs as [|e evs IH]; intros a I; [done|].
  cbn. apply IH. by apply bootstrap_inv_step.
Qed.

Lemma flag_step a e : flag a = true → flag (step a e) = true.
Proof.
  intros Hf. destruct e as [ls|v| |r l|c hits|c].
  - by destruct (session_start_spec a ls) as (-> & _).
  - done.
  - cbn [step]. rewrite single_render_guard_false; [done|].
    destruct (bootstrap_guard a) eqn:Hg; [|done].
    apply guard_flag in Hg. congruence.
  - cbn [step]. by destruct (settle_spec a r l) as (-> & _).
  - cbn [step]. by destruct (select_start_spec a c hits) as [-> _].
  - done.
Qed.

Lemma flag_run evs a : flag a = true → flag (run evs a) = true.
Proof.
  revert a. induction evs as [|e evs IH]; intros a I; [done|].
  cbn. apply IH. by apply flag_step.
Qed.

(** The bootstrap of the single-layer application is entered at most once,
    and exactly once from the first frame on which its guard holds. *)
Lemma single_bootstrap_at_most_once evs :
  (bootstraps (log (run evs constructor)) ≤ 1)%nat.
Proof.
  pose proof (bootstrap_inv_run evs _ bootstrap_inv_constructor) as I.
  unfold bootstrap_inv in I. rewrite I. destruct (flag _); lia.
Qed.

Lemma single_bootstrap_exactly_once pre post :
  bootstrap_guard (run pre constructor) = true →
  flag (run (pre ++ [Frame]) constructor) = true ∧
  pending (run (pre ++ [Frame]) constructor) = S (pending (run pre constructor)) ∧
  bootstraps (log (run (pre ++ Frame :: post) constructor)) = 1%nat.
Proof.
  intros Hg.
  destruct (single_render_guard_true _ Hg) as (Hf & Hp & _).
  rewrite single_run_app. cbn [run fold_left step]. split; [done|]. split; [done|].
  change (pre ++ Frame :: post) with (pre ++ [Frame] ++ post).
  pose proof (bootstrap_inv_run (pre ++ [Frame] ++ post) _ bootstrap_inv_constructor) as I.
  rewrite !single_run_app in *. unfold bootstrap_inv in I. rewrite I.
  rewrite flag_run; [done|]. exact Hf.
Qed.

(** *** The toolbar *)

Lemma toolbar_inv_added a a' :
  toolbar_inv a → isToolbarVisible a = false →
  log a' = log a ++ [SceneAdd (Some toolbarGroup)] →
  isToolbarVisible a' = true →
  toolbar_inv a'.
Proof.
  intros [Hn Hl] Hv Hlog Hv'. unfold toolbar_inv, toolbar_ops in *.
  rewrite Hlog, single_scene_ops_app.
  change (scene_ops toolbarGroup [SceneAdd (Some toolbarGroup)]) with [Added].
  rewrite no_double_add_snoc, Hn. split; [|done].
  destruct (last_added false (scene_ops toolbarGroup (log a))); [|done].
  rewrite Hl in Hv; done.
Qed.

Lemma toolbar_inv_removed a a' :
  toolbar_inv a →
  log a' = log a ++ [SceneRemove (Some toolbarGroup)] →
  toolbar_inv a'.
Proof.
  intros [Hn Hl] Hlog. unfold toolbar_inv, toolbar_ops in *.
  rewrite Hlog, single_scene_ops_app.
  change (scene_ops toolbarGroup [SceneRemove (Some toolbarGroup)]) with [Removed].
  rewrite no_double_add_snoc, Hn, last_added_snoc. done.
Qed.

Lemma toolbar_inv_same a a' l' :
  toolbar_inv a →
  log a' = log a ++ l' → scene_ops toolbarGroup l' = [] →
  isToolbarVisible a' = isToolbarVisible a →
  toolbar_inv a'.
Proof.
  unfold toolbar_inv, toolbar_ops. intros I -> Hl ->.
  by rewrite single_scene_ops_app, Hl, app_nil_r.
Qed.

Lemma toolbar_inv_constructor : toolbar_inv constructor.
Proof. split; done. Qed.

Lemma toolbar_inv_step a e : toolbar_inv a → toolbar_inv (step a e).
Proof.
  intros I. destruct e as [ls|v| |r l|c hits|c].
  - destruct (session_start_spec a ls) as (_ & Hv & _ & Hl).
    apply (toolbar_inv_same a _ []); rewrite ?app_nil_r; done.
  - apply (toolbar_inv_same a _ []); rewrite ?app_nil_r; done.
  - cbn [step]. destruct (bootstrap_guard a) eqn:Hg.
    + destruct (single_render_guard_true a Hg) as (_ & _ & Hv & _ & Hl).
      by eapply toolbar_inv_same.
    + rewrite single_render_guard_false by done.
      apply (toolbar_inv_same a _ []); rewrite ?app_nil_r; done.
  - cbn [step]. destruct (settle_spec a r l) as (_ & Hv & _ & l' & Hl & _ & Hs).
    by eapply toolbar_inv_same.
  - cbn [step]. destruct (select_start_spec a c hits) as [_ H].
    destruct (isToolbarVisible a) eqn:Hv; [destruct (length hits =? 0)%nat|].
    + destruct H as (_ & _ & Hl). by eapply toolbar_inv_removed.
    + destruct H as (Hv' & _ & Hl).
      apply (toolbar_inv_same a _ []); rewrite ?app_nil_r; try done.
      congruence.
    + destruct H as (Hv' & _ & Hl). by eapply toolbar_inv_added.
  - by apply (toolbar_inv_removed a).
Qed.

Lemma toolbar_inv_run evs a : toolbar_inv a → toolbar_inv (run evs a).
Proof.
  revert a. induction evs as [|e evs IH]; intros a I; [done|].
  cbn. apply IH. by apply toolbar_inv_step.
Qed.

(** A select-start on the hidden toolbar shows it. *)
Lemma select_start_hidden a c hits :
  isToolbarVisible a = false →
  let a' := step a (SelectStart c hits) in
  isToolbarVisible a' = true ∧
  in_scene toolbarGroup (scene a') = true ∧
  log a' = log a ++ [SceneAdd (Some toolbarGroup)].
Proof.
  intros Hv a'. subst a'. cbn [step]. unfold handleToolbarIntersection.
  rewrite Hv. cbn. split; [done|]. split; [|done].
  unfold in_scene. apply bool_decide_eq_true_2. apply lookup_insert_eq.
Qed.

(** A select-start that hits nothing hides the visible toolbar. *)
Lemma select_start_visible_no_hit a c :
  isToolbarVisible a = true →
  let a' := step a (SelectStart c []) in
  isToolbarVisible a' = false ∧
  in_scene toolbarGroup (scene a') = false ∧
  log a' = log a ++ [SceneRemove (Some toolbarGroup)].
Proof.
  intros Hv a'. subst a'. cbn [step]. unfold handleToolbarIntersection.
  rewrite Hv. cbn. split; [done|]. split; [|done].
  unfold in_scene, remove. apply bool_decide_eq_false_2.
  destruct (decide (scene a !! toolbarGroup = Some Scene)) as [E|E].
  - by rewrite lookup_delete_eq.
  - done.
Qed.

(** Between two select-starts the mark does not change. *)
Lemma visible_other_step a e :
  not_select_start e = true → isToolbarVisible (step a e) = isToolbarVisible a.
Proof.
  intros He. destruct e as [ls|v| |r l|c hits|c]; cbn [step]; try done.
  - by destruct (session a).
  - destruct (bootstrap_guard a) eqn:Hg.
    + by destruct (single_render_guard_true a Hg) as (_ & _ & Hv & _).
    + by rewrite single_render_guard_false.
  - by destruct (settle_spec a r l) as (_ & Hv & _).
Qed.

Lemma visible_other_run evs a :
  forallb not_select_start evs = true →
  isToolbarVisible (run evs a) = isToolbarVisible a.
Proof.
  revert a. induction evs as [|e evs IH]; intros a H; [done|].
  cbn in H. apply andb_prop in H as [He H].
  cbn. rewrite IH by done. by apply visible_other_step.
Qed.

(** A disconnected controller: the toolbar group leaves the scene, the mark
    stays as it was. *)
Lemma disconnected_removes_toolbar a c :
  let a' := step a (Disconnected c) in
  in_scene toolbarGroup (scene a') = false ∧
  isToolbarVisible a' = isToolbarVisible a ∧
  log a' = log a ++ [SceneRemove (Some toolbarGroup)].
Proof.
  intros a'. subst a'. cbn. split; [|done].
  unfold in_scene, remove. apply bool_decide_eq_false_2.
  destruct (decide (scene a !! toolbarGroup = Some Scene)) as [E|E]; [|done].
  by rewrite lookup_delete_eq.
Qed.

End SingleLayerFacts.

(** ** The multi-layer application *)

Module MultipleLayersFacts.
Import Three MultipleLayers.

Ltac app_simpl :=
  cbn [log session videos mediaLayers isToolbarVisible scene pending
       emit set_session set_videos set_mediaLayers set_isToolbarVisible
       set_scene set_pending fst snd] in *.

(** *** Logs *)

Lemma bootstrap_log_app l l' :
  bootstrap_log (l ++ l') = bootstrap_log l ++ bootstrap_log l'.
Proof. apply filter_app. Qed.

Lemma bootstraps_app l l' : bootstraps (l ++ l') = (bootstraps l + bootstraps l')%nat.
Proof. unfold bootstraps. by rewrite filter_app, length_app. Qed.

Lemma scene_ops_app o l l' : scene_ops o (l ++ l') = scene_ops o l ++ scene_ops o l'.
Proof. apply omap_app. Qed.

Lemma scene_ops_cons o e l :
  scene_ops o (e :: l) = option_list (scene_op_of o e) ++ scene_ops o l.
Proof. unfold scene_ops. cbn. by destruct (scene_op_of o e). Qed.

Lemma scene_ops_nil o : scene_ops o [] = [].
Proof. reflexivity. Qed.

Lemma scene_op_of_add o : scene_op_of o (SceneAdd (Some o)) = Some Added.
Proof. cbn. by rewrite decide_True. Qed.

Lemma scene_op_of_remove o : scene_op_of o (SceneRemove (Some o)) = Some Removed.
Proof. cbn. by rewrite decide_True. Qed.

Lemma run_app evs1 evs2 a : run (evs1 ++ evs2) a = run evs2 (run evs1 a).
Proof. apply fold_left_app. Qed.

(** *** Computations that respect a preorder on states *)

Section Respects.
Context (R : App → App → Prop) `{!PreOrder R}.

Lemma respects_ret {A} (x : A) : respects R (mret x).
Proof. intros a. reflexivity. Qed.

Lemma respects_throw {A} e : respects R (@throw A e).
Proof. intros a. reflexivity. Qed.

Lemma respects_gets {A} (f : App → A) : respects R (gets f).
Proof. intros a. reflexivity. Qed.

Lemma respects_modify (g : App → App) : (∀ a, R a (g a)) → respects R (modify g).
Proof. intros H a. apply H. Qed.

Lemma respects_bind {A B} (m : M A) (f : A → M B) :
  respects R m → (∀ x, respects R (f x)) → respects R (m ≫= f).
Proof.
  intros Hm Hf a. unfold mbind, M_bind, bind.
  specialize (Hm a). destruct (m a) as [[x|e] a1]; [|done].
  cbn in Hm. etrans; [exact Hm|]. apply Hf.
Qed.

Lemma respects_forEach {A} (f : A → string → M unit) ms :
  (∀ k x, (k, x) ∈ ms → respects R (f x k)) → respects R (forEach f ms).
Proof.
  induction ms as [|[k x] ms IH]; intros H; cbn [forEach].
  - apply respects_ret.
  - apply respects_bind; [apply H; left|].
    intros _. apply IH. intros k' x' Hin. apply H. by right.
Qed.

Lemma respects_forOf {A} (f : A → M unit) xs :
  (∀ x, respects R (f x)) → respects R (forOf f xs).
Proof.
  intros H. induction xs as [|x xs IH]; cbn [forOf].
  - apply respects_ret.
  - apply respects_bind; [apply H|]. by intros _.
Qed.

Lemma respects_forEachAssign {A B} (f : B → A → string → M B) b ms :
  (∀ b x k, respects R (f b x k)) → respects R (forEachAssign f b ms).
Proof.
  intros H. revert b. induction ms as [|[k x] ms IH]; intros b; cbn [forEachAssign].
  - apply respects_ret.
  - apply respects_bind; [apply H|]. intros b'. apply IH.
Qed.

Lemma respects_read_visible k : respects R (read_visible k).
Proof. intros a. unfold read_visible. by destruct (isToolbarVisible a). Qed.

Lemma respects_checkHidden b x k : respects R (checkHidden b x k).
Proof.
  apply respects_bind; [apply respects_read_visible|].
  intros v. apply respects_ret.
Qed.

End Respects.

(** *** Toolbar interaction leaves the bootstrap alone *)

#[local] Instance same_boot_preorder : PreOrder same_boot.
Proof.
  split.
  - intros a. repeat split; try done. exists []. by rewrite app_nil_r.
  - intros a b c (Hs & Hv & Hm & Hp & Hi & l1 & Hl1 & Hb1)
                 (Hs' & Hv' & Hm' & Hp' & Hi' & l2 & Hl2 & Hb2).
    repeat split; try congruence; try tauto.
    exists (l1 ++ l2). rewrite Hl2, Hl1, <- app_assoc. split; [done|].
    by rewrite bootstrap_log_app, Hb1, Hb2.
Qed.

#[local] Instance keeps_preorder k t : PreOrder (keeps k t).
Proof.
  split.
  - intros a. repeat split. exists []. by rewrite app_nil_r.
  - intros a b c (Hv & Hs & l1 & Hl1 & Ho1) (Hv' & Hs' & l2 & Hl2 & Ho2).
    repeat split; try congruence.
    exists (l1 ++ l2). rewrite Hl2, Hl1, <- app_assoc. split; [done|].
    by rewrite scene_ops_app, Ho1, Ho2.
Qed.

Lemma same_boot_emit e a : bootstrap_effect e = false → same_boot a (emit e a).
Proof.
  intros He. repeat split; try done. exists [e]. split; [done|].
  unfold bootstrap_log. rewrite filter_cons, filter_nil. by rewrite He.
Qed.

Lemma same_boot_scene g e a :
  bootstrap_effect e = false → same_boot a (emit e (set_scene g a)).
Proof.
  intros He. repeat split; try done. exists [e]. split; [done|].
  unfold bootstrap_log. rewrite filter_cons, filter_nil. by rewrite He.
Qed.

Lemma same_boot_write_visible k b : respects same_boot (write_visible k b).
Proof.
  intros a. unfold write_visible. destruct (isToolbarVisible a) eqn:E; [|reflexivity].
  repeat split; app_simpl; rewrite ?E; try done. exists []. by rewrite app_nil_r.
Qed.

Lemma same_boot_scene_add o : respects same_boot (scene_add o).
Proof. intros a. by apply same_boot_scene. Qed.

Lemma same_boot_scene_remove o : respects same_boot (scene_remove o).
Proof. intros a. by apply same_boot_scene. Qed.

Lemma same_boot_controller_attach c o : respects same_boot (controller_attach c o).
Proof. destruct o; [|apply respects_throw; apply _]. intros a. by apply same_boot_scene. Qed.

Lemma same_boot_controller_remove c o : respects same_boot (controller_remove c o).
Proof. intros a. by apply same_boot_scene. Qed.

Create HintDb same_boot discriminated.

#[local] Hint Resolve respects_ret respects_throw respects_gets respects_read_visible
  respects_checkHidden same_boot_write_visible same_boot_scene_add
  same_boot_scene_remove same_boot_controller_attach same_boot_controller_remove
  same_boot_preorder : same_boot.

Ltac respects_step :=
  lazymatch goal with
  | |- respects _ (_ ≫= _) => apply respects_bind; [apply _| |intros ?]
  | |- respects _ (if ?b then _ else _) => destruct b
  | |- respects _ (match ?x with _ => _ end) => destruct x
  | |- respects _ (forEachAssign _ _ _) => apply respects_forEachAssign; [apply _|intros ? ? ?]
  | |- respects _ (forOf _ _) => apply respects_forOf; [apply _|intros ?]
  | |- respects _ (modify (emit _)) =>
      apply respects_modify; intros ?; by apply same_boot_emit
  end.

Lemma same_boot_handleToolbarIntersections c objects cast :
  respects same_boot (handleToolbarIntersections c objects cast).
Proof.
  unfold handleToolbarIntersections.
  repeat first [respects_step | solve [eauto with same_boot]].
Qed.

Lemma same_boot_selectStartLayer c cast x k :
  respects same_boot (selectStartLayer c cast x k).
Proof.
  pose proof same_boot_handleToolbarIntersections.
  unfold selectStartLayer.
  repeat first [respects_step | solve [eauto with same_boot]].
Qed.

Lemma same_boot_handleSelectStart c cast :
  respects same_boot (handleSelectStart c cast).
Proof.
  unfold handleSelectStart. apply respects_bind; [apply _|apply respects_gets; apply _|].
  intros ms. apply respects_forEach; [apply _|].
  intros. apply same_boot_selectStartLayer.
Qed.

Lemma same_boot_handleSelectEnd c : respects same_boot (handleSelectEnd c).
Proof.
  unfold handleSelectEnd. apply respects_bind; [apply _|apply respects_gets; apply _|].
  intros ms. apply respects_forEach; [apply _|].
  intros k x _. unfold selectEndLayer.
  repeat first [respects_step | solve [eauto with same_boot]].
Qed.

Lemma same_boot_onDisconnected c : respects same_boot (onDisconnected c).
Proof.
  unfold onDisconnected.
  repeat first [respects_step | solve [eauto with same_boot]].
Qed.

Lemma same_boot_as_listener m a :
  respects same_boot m → same_boot a (as_listener m a).
Proof.
  intros H. unfold as_listener. specialize (H a).
  destruct (m a) as [[[]|e] a']; [done|].
  etrans; [exact H|]. by apply same_boot_emit.
Qed.

(** *** [render] *)

Lemma bind_inv {A B} (m : M A) (f : A → M B) a r a' :
  (m ≫= f) a = (r, a') →
  (∃ x a1, m a = (inl x, a1) ∧ f x a1 = (r, a')) ∨
  (∃ e, m a = (inr e, a') ∧ r = inr e).
Proof.
  unfold mbind, M_bind, bind. destruct (m a) as [[x|e] a1]; intros H.
  - left. by exists x, a1.
  - right. exists e. by inversion H.
Qed.

Lemma bind_eq {A B} (m : M A) (f : A → M B) a :
  (m ≫= f) a
  = match m a with
    | (inl x, a') => f x a'
    | (inr e, a') => (inr e, a')
    end.
Proof. reflexivity. Qed.

Lemma ret_eq {A} (x : A) a : (mret x : M A) a = (inl x, a).
Proof. reflexivity. Qed.

Lemma gets_eq {A} (f : App → A) a : gets f a = (inl (f a), a).
Proof. reflexivity. Qed.

Lemma modify_eq f a : modify f a = (inl tt, f a).
Proof. reflexivity. Qed.

Ltac msimpl :=
  repeat (progress (rewrite ?bind_eq, ?modify_eq, ?gets_eq, ?ret_eq; cbn beta iota)).

Lemma read_visible_Some k a m :
  isToolbarVisible a = Some m →
  read_visible k a = (inl (default false (m !! k)), a).
Proof. intros H. unfold read_visible. by rewrite H. Qed.

Lemma read_visible_None k a :
  isToolbarVisible a = None →
  read_visible k a = (inr (TypeError "isToolbarVisible is undefined"), a).
Proof. intros H. unfold read_visible. by rewrite H. Qed.

Lemma write_visible_Some k b a m :
  isToolbarVisible a = Some m →
  write_visible k b a = (inl tt, set_isToolbarVisible (Some (<[k := b]> m)) a).
Proof. intros H. unfold write_visible. by rewrite H. Qed.

Lemma checkHidden_Some b x k a m :
  isToolbarVisible a = Some m →
  checkHidden b x k a = (inl (if default false (m !! k) then false else b), a).
Proof.
  intros Hm. unfold checkHidden. by rewrite bind_eq, (read_visible_Some _ _ _ Hm).
Qed.

Lemma checkHidden_None b x k a :
  isToolbarVisible a = None →
  checkHidden b x k a = (inr (TypeError "isToolbarVisible is undefined"), a).
Proof.
  intros Hm. unfold checkHidden. by rewrite bind_eq, (read_visible_None _ _ Hm).
Qed.

Lemma checkHidden_all b ms a m :
  isToolbarVisible a = Some m →
  forEachAssign checkHidden b ms a
  = (inl (b && forallb (λ kl : string * MediaLayer, negb (default false (m !! kl.1))) ms), a).
Proof.
  intros Hm. revert b. induction ms as [|[k x] ms IH]; intros b; cbn [forEachAssign].
  - cbn. by rewrite andb_true_r.
  - rewrite bind_eq, (checkHidden_Some _ _ _ _ _ Hm), IH. cbn [forallb fst].
    by destruct (default false (m !! k)), b.
Qed.

Lemma checkHidden_undefined b k x ms a :
  isToolbarVisible a = None →
  forEachAssign checkHidden b ((k, x) :: ms) a
  = (inr (TypeError "isToolbarVisible is undefined"), a).
Proof.
  intros Hm. cbn [forEachAssign].
  by rewrite bind_eq, (checkHidden_None _ _ _ _ Hm).
Qed.

(** With no media layer [handleToolbarIntersections] removes the marker of
    the controller and returns [undefined]. *)
Lemma handleToolbarIntersections_no_layers c objects cast a :
  mediaLayers a = [] →
  (handleToolbarIntersections c (Some objects) cast a).1 = inl None.
Proof.
  intros Hm. unfold handleToolbarIntersections.
  rewrite bind_eq, gets_eq, Hm. reflexivity.
Qed.

(** With the dictionary of visibility in place it does not throw. *)
Lemma handleToolbarIntersections_defined c objects cast a :
  is_Some (isToolbarVisible a) →
  ∃ r, (handleToolbarIntersections c (Some objects) cast a).1 = inl r.
Proof.
  intros [m Hm]. unfold handleToolbarIntersections.
  rewrite bind_eq, gets_eq, bind_eq, (checkHidden_all _ _ _ _ Hm). cbn [andb].
  destruct (forallb _ _); [by eexists|].
  destruct (0 <? _)%nat; by eexists.
Qed.

(** When the toolbar of some layer is visible it returns the intersections. *)
Lemma handleToolbarIntersections_visible c objects cast a k x :
  (k, x) ∈ mediaLayers a → visible k a = true →
  (handleToolbarIntersections c (Some objects) cast a).1
  = inl (Some (cast c objects)).
Proof.
  intros Hin Hv. unfold visible in Hv.
  destruct (isToolbarVisible a) as [m|] eqn:Hm; [|done].
  unfold handleToolbarIntersections.
  rewrite bind_eq, gets_eq, bind_eq, (checkHidden_all _ _ _ _ Hm). cbn [andb].
  destruct (forallb _ _) eqn:Hall.
  - rewrite forallb_forall in Hall.
    apply list_elem_of_In, Hall in Hin. cbn in Hin. by rewrite Hv in Hin.
  - by destruct (0 <? _)%nat.
Qed.

(** It throws only when there are media layers and no dictionary. *)
Lemma handleToolbarIntersections_throws c objects cast a e :
  (handleToolbarIntersections c objects cast a).1 = inr e →
  isToolbarVisible a = None ∧ mediaLayers a ≠ [].
Proof.
  destruct objects as [objects|]; [|done].
  destruct (isToolbarVisible a) as [m|] eqn:Hm.
  - destruct (handleToolbarIntersections_defined c objects cast a) as [r Hr];
      [by eexists|]. congruence.
  - destruct (mediaLayers a) eqn:Hms; [|done].
    by rewrite handleToolbarIntersections_no_layers.
Qed.

Lemma same_boot_renderController cast c : respects same_boot (renderController cast c).
Proof.
  pose proof same_boot_handleToolbarIntersections.
  unfold renderController.
  repeat first [respects_step | solve [eauto with same_boot]].
Qed.

Lemma same_boot_updateLayers p : respects same_boot (updateLayers p).
Proof.
  destruct p; [|apply respects_ret; apply _].
  apply respects_bind; [apply _|apply respects_gets; apply _|]. intros ms.
  apply respects_forEach; [apply _|]. intros k x _.
  apply respects_modify. intros a. by apply same_boot_emit.
Qed.

Lemma bootstrap_guard_same_boot a a' :
  same_boot a a' → bootstrap_guard a' = bootstrap_guard a.
Proof. intros (Hs & Hv & _). unfold bootstrap_guard. by rewrite Hs, Hv. Qed.

(** What [render] does: the part before the guard is toolbar interaction;
    then either that part threw, or the guard is false and nothing else
    happens, or the guard is true and the bootstrap starts. *)
Lemma render_body_spec p cast a :
  ∃ a1, same_boot a a1 ∧
    ((∃ e, render_body p cast a = (inr e, a1)) ∨
     (bootstrap_guard a = false ∧ render_body p cast a = (inl tt, a1)) ∨
     (bootstrap_guard a = true ∧ render_body p cast a = startBootstrap a1)).
Proof.
  unfold render_body. rewrite bind_eq.
  pose proof (same_boot_updateLayers p a) as HA.
  destruct (updateLayers p a) as [[[]|e] a1]; cbn [snd] in HA.
  2:{ exists a1. split; [done|]. left. by exists e. }
  pose proof (respects_forOf same_boot (renderController cast) controllers
                (same_boot_renderController cast) a1) as HB.
  rewrite bind_eq.
  destruct (forOf _ _ a1) as [[[]|e] a2]; cbn [snd] in HB.
  2:{ exists a2. split; [by etrans|]. left. by exists e. }
  assert (same_boot a a2) as H2 by (by etrans).
  exists a2. split; [done|]. right.
  rewrite bind_eq, gets_eq, (bootstrap_guard_same_boot _ _ H2).
  destruct (bootstrap_guard a); [right|left]; done.
Qed.

(** A frame on which the guard is false is toolbar interaction only. *)
Lemma render_guard_false p cast a :
  bootstrap_guard a = false → same_boot a (render p cast a).
Proof.
  intros Hg. unfold render, as_async.
  destruct (render_body_spec p cast a) as (a1 & H1 & [[e ->]|[[_ ->]|[Hg' _]]]).
  - etrans; [exact H1|]. by apply same_boot_emit.
  - done.
  - congruence.
Qed.

(** Without media layers the part of [render] before the guard does not
    throw. *)
Lemma updateLayers_no_layers p a :
  mediaLayers a = [] → updateLayers p a = (inl tt, a).
Proof.
  intros Hms. destruct p; [|done]. unfold updateLayers.
  by rewrite bind_eq, gets_eq, Hms.
Qed.

Lemma renderController_succeeds cast c a :
  mediaLayers a = [] ∨ is_Some (isToolbarVisible a) →
  (renderController cast c a).1 = inl tt.
Proof.
  intros H. unfold renderController. rewrite bind_eq, gets_eq, bind_eq.
  set (objs := concat _).
  destruct (handleToolbarIntersections c (Some objs) cast a) as [[r|e] a'] eqn:E;
    [done|].
  apply (f_equal fst) in E. cbn [fst] in E.
  apply handleToolbarIntersections_throws in E as [E1 E2].
  destruct H as [H|[m H]]; congruence.
Qed.

Lemma forOf_controllers_succeeds cast a :
  mediaLayers a = [] ∨ is_Some (isToolbarVisible a) →
  (forOf (renderController cast) controllers a).1 = inl tt.
Proof.
  intros H. unfold controllers. cbn [forOf]. rewrite bind_eq.
  pose proof (renderController_succeeds cast Controller0 a H) as H0.
  pose proof (same_boot_renderController cast Controller0 a) as S0.
  destruct (renderController cast Controller0 a) as [[[]|e] a1]; [|done].
  cbn [snd] in S0. rewrite bind_eq.
  assert (mediaLayers a1 = [] ∨ is_Some (isToolbarVisible a1)) as H1.
  { destruct S0 as (_ & _ & Hm & _ & Hi & _). destruct H; [left|right].
    - congruence.
    - by apply Hi. }
  pose proof (renderController_succeeds cast Controller1 a1 H1) as H1'.
  by destruct (renderController cast Controller1 a1) as [[[]|e] a2].
Qed.

Lemma forEach_modify_succeeds {A} (g : A → string → App → App) ms a :
  (forEach (λ x k, modify (g x k)) ms a).1 = inl tt.
Proof.
  revert a. induction ms as [|[k x] ms IH]; intros a; [done|].
  cbn [forEach]. rewrite bind_eq, modify_eq. apply IH.
Qed.

(** *** Toolbar interaction and the bootstrap *)

Lemma same_boot_None a a' :
  same_boot a a' → isToolbarVisible a = None → isToolbarVisible a' = None.
Proof.
  intros (_ & _ & _ & _ & Hi & _) E.
  destruct (isToolbarVisible a') eqn:E'; [|done].
  destruct Hi as [Hi _]. destruct Hi as [? Hi]; [by eexists|]. congruence.
Qed.

Lemma same_boot_log a a' :
  same_boot a a' → bootstrap_log (log a') = bootstrap_log (log a).
Proof.
  intros (_ & _ & _ & _ & _ & l' & Hl & Hb).
  by rewrite Hl, bootstrap_log_app, Hb, app_nil_r.
Qed.

Lemma flag_guard a : flag a = true → bootstrap_guard a = false.
Proof.
  unfold flag, bootstrap_guard. destruct (session a) as [s|]; [|done].
  intros ->. by rewrite andb_false_r.
Qed.

(** *** Parts of the log *)

Lemma bootstraps_bootstrap_log l : bootstraps (bootstrap_log l) = bootstraps l.
Proof.
  unfold bootstraps, bootstrap_log. f_equal.
  apply list_filter_filter_l. by intros e ->.
Qed.

Lemma plays_bootstrap_log key l : plays key (bootstrap_log l) = plays key l.
Proof.
  unfold plays, bootstrap_log. f_equal.
  apply list_filter_filter_l. by intros e ->.
Qed.

Lemma published_bootstrap_log l : published (bootstrap_log l) = published l.
Proof.
  unfold published, bootstrap_log. induction l as [|e l IH]; [done|].
  destruct e; first [rewrite filter_cons_True by done | rewrite filter_cons_False by (by intros [])];
    cbn; by rewrite IH.
Qed.

(** *** Readiness *)

Lemma isVideosReady_forallb vs :
  isVideosReady vs = forallb (λ kv : string * Video, readyState kv.2 =? 4)%nat vs.
Proof.
  unfold isVideosReady.
  assert (∀ b, fold_left (λ ready (kv : string * Video),
                 if negb (readyState kv.2 =? 4)%nat then false else ready) vs b
               = b && forallb (λ kv : string * Video, readyState kv.2 =? 4)%nat vs)
    as H; [|by rewrite H].
  induction vs as [|kv vs IH]; intros b; cbn [fold_left forallb].
  - by rewrite andb_true_r.
  - rewrite IH. by destruct (readyState kv.2 =? 4)%nat, b.
Qed.

Lemma isVideosReady_spec vs :
  isVideosReady vs = true ↔ ∀ key v, (key, v) ∈ vs → readyState v = 4%nat.
Proof.
  rewrite isVideosReady_forallb, forallb_forall. split.
  - intros H key v Hin. apply list_elem_of_In, H in Hin.
    by apply Nat.eqb_eq in Hin.
  - intros H [key v] Hin. apply Nat.eqb_eq, (H key). by apply list_elem_of_In.
Qed.

Lemma not_ready_guard a : some_video_not_ready a → bootstrap_guard a = false.
Proof.
  intros (key & v & Hin & Hv). unfold bootstrap_guard.
  destruct (session a) as [s|]; [|done].
  destruct (isVideosReady (videos a)) eqn:E; [|by rewrite andb_false_r].
  rewrite isVideosReady_spec in E. by apply E in Hin.
Qed.

(** With no media layer, or with the dictionary of visibility in place,
    a frame on which the guard is false raises no error. *)
Lemma render_body_succeeds p cast a :
  mediaLayers a = [] ∨ is_Some (isToolbarVisible a) →
  bootstrap_guard a = false →
  (render_body p cast a).1 = inl tt.
Proof.
  intros H Hg. unfold render_body. rewrite bind_eq.
  pose proof (same_boot_updateLayers p a) as HA.
  assert ((updateLayers p a).1 = inl tt) as HA'.
  { destruct p; [|done]. unfold updateLayers. rewrite bind_eq, gets_eq.
    apply (forEach_modify_succeeds (λ _ key, emit (UpdateOnRender key))). }
  destruct (updateLayers p a) as [[[]|e] a1]; [|done]. cbn [snd] in HA.
  assert (mediaLayers a1 = [] ∨ is_Some (isToolbarVisible a1)) as H1.
  { destruct HA as (_ & _ & Hm & _ & Hi & _). destruct H; [left|right].
    - congruence.
    - by apply Hi. }
  rewrite bind_eq.
  pose proof (forOf_controllers_succeeds cast a1 H1) as HB.
  pose proof (respects_forOf same_boot (renderController cast) controllers
                (same_boot_renderController cast) a1) as HS.
  destruct (forOf _ _ a1) as [[[]|e] a2]; [|done]. cbn [snd] in HS.
  rewrite bind_eq, gets_eq.
  rewrite (bootstrap_guard_same_boot a a2), Hg by (by etrans). reflexivity.
Qed.

(** A frame on which some tracked video is not ready: the guard is false,
    the session, the videos, the suspended calls and the media layers are as
    before, the log gains no effect of the bootstrap, and as long as no
    media layer has been stored the frame raises no error. *)
Lemma not_ready_frame_creates_nothing a pr cast :
  some_video_not_ready a →
  let a' := step a (Frame pr cast) in
  bootstrap_guard a = false ∧
  session a' = session a ∧ videos a' = videos a ∧
  pending a' = pending a ∧ mediaLayers a' = mediaLayers a ∧
  bootstrap_log (log a') = bootstrap_log (log a) ∧
  (mediaLayers a = [] → (render_body pr cast a).1 = inl tt ∧
                        bootstrap_guard a' = false).
Proof.
  intros Hnr a'. pose proof (not_ready_guard a Hnr) as Hg.
  pose proof (render_guard_false pr cast a Hg) as HS.
  pose proof (same_boot_log _ _ HS) as Hlog.
  pose proof (bootstrap_guard_same_boot _ _ HS) as Hg'.
  destruct HS as (Hs & Hv & Hm & Hp & _).
  repeat split; try done.
  - by apply render_body_succeeds; [left|].
  - subst a'. cbn [step]. congruence.
Qed.

(** *** The bootstrap *)

(** The call of [createMediaLayer] raises its TypeError with the flag set
    and the entry into the bootstrap recorded. *)
Lemma startBootstrap_eq a :
  startBootstrap a
  = (inr no_createMediaLayer,
     emit EnterBootstrap (set_session (mark_media_layer <$> session a) a)).
Proof. reflexivity. Qed.

Lemma getIntersectPoint_empty c : getIntersectPoint c ∅ = None.
Proof. unfold getIntersectPoint. by rewrite lookup_empty. Qed.

(** A frame while no media layer is stored and the scene graph holds
    nothing of the application's: the marker of either controller is asked
    off the scene, to no effect, and then, if the guard holds, the bootstrap
    is entered and [render] rejects. *)
Lemma render_inert pr cast a :
  mediaLayers a = [] → scene a = ∅ →
  let a' := render pr cast a in
  videos a' = videos a ∧ pending a' = pending a ∧ mediaLayers a' = [] ∧
  isToolbarVisible a' = isToolbarVisible a ∧ scene a' = ∅ ∧
  if bootstrap_guard a then
    (render_body pr cast a).1 = inr no_createMediaLayer ∧
    session a' = mark_media_layer <$> session a ∧
    log a' = log a ++ [SceneRemove None; SceneRemove None; EnterBootstrap;
                       RenderRejected no_createMediaLayer]
  else
    (render_body pr cast a).1 = inl tt ∧
    session a' = session a ∧
    log a' = log a ++ [SceneRemove None; SceneRemove None].
Proof.
  intros Hms Hsc a'. subst a'. unfold render, as_async, render_body.
  rewrite bind_eq, (updateLayers_no_layers _ _ Hms).
  unfold controllers. cbn [forOf].
  unfold renderController, handleToolbarIntersections, scene_remove.
  msimpl. app_simpl. rewrite Hms. cbn [forEachAssign]. msimpl. app_simpl.
  rewrite Hms, Hsc, getIntersectPoint_empty. cbn [remove forEachAssign].
  msimpl. app_simpl. rewrite getIntersectPoint_empty. cbn [remove].
  msimpl.
  match goal with |- context [bootstrap_guard ?s] =>
    change (bootstrap_guard s) with (bootstrap_guard a) end.
  destruct (bootstrap_guard a).
  - rewrite startBootstrap_eq. app_simpl. rewrite <- !app_assoc. done.
  - rewrite ret_eq. app_simpl. rewrite <- !app_assoc. done.
Qed.

Lemma errors_app l l' : errors (l ++ l') = errors l ++ errors l'.
Proof. apply filter_app. Qed.

Lemma guard_flag_false a : bootstrap_guard a = true → flag a = false.
Proof.
  intros Hg. destruct (flag a) eqn:Hf; [|done].
  by rewrite (flag_guard _ Hf) in Hg.
Qed.

Lemma guard_session a : bootstrap_guard a = true → is_Some (session a).
Proof. unfold bootstrap_guard. by destruct (session a). Qed.

Lemma inert_constructor videoIn : inert (constructor videoIn).
Proof. by repeat split. Qed.

(** Every event keeps the application as [inert] says. *)
Lemma inert_step a e : inert a → inert (step a e).
Proof.
  intros (Hp & Hm & Hi & Hsc & Hb & He).
  destruct e as [ls|key rs|pr cast|i r|c cast|c|c]; cbn [step].
  - destruct (session a) as [s|] eqn:Hs; [done|].
    unfold inert, flag in *. rewrite Hs in Hb, He. by app_simpl.
  - done.
  - destruct (render_inert pr cast a Hm Hsc) as (_ & Hp' & Hm' & Hi' & Hsc' & H).
    unfold inert. rewrite Hp', Hm', Hi', Hsc', Hp, Hi.
    do 4 (split; [done|]).
    destruct (bootstrap_guard a) eqn:Hg; destruct H as (_ & Hs' & Hl').
    + pose proof (guard_flag_false _ Hg) as Hf.
      destruct (guard_session _ Hg) as [s Es].
      assert (flag (render pr cast a) = true) as ->
        by (unfold flag; by rewrite Hs', Es).
      by rewrite Hl', bootstrap_log_app, errors_app, Hb, He, Hf.
    + assert (flag (render pr cast a) = flag a) as ->
        by (unfold flag; by rewrite Hs').
      by rewrite Hl', bootstrap_log_app, errors_app, Hb, He, !app_nil_r.
  - unfold settle. by rewrite Hp.
  - unfold as_listener, handleSelectStart. rewrite bind_eq, gets_eq, Hm. done.
  - unfold as_listener, handleSelectEnd. rewrite bind_eq, gets_eq, Hm. done.
  - unfold as_listener, onDisconnected, scene_remove. msimpl. cbn.
    unfold inert, flag. app_simpl.
    by rewrite bootstrap_log_app, errors_app, Hb, He, !app_nil_r.
Qed.

Lemma inert_run evs a : inert a → inert (run evs a).
Proof.
  revert a. induction evs as [|e evs IH]; intros a Ha; [done|].
  cbn [run fold_left]. by apply IH, inert_step.
Qed.

Lemma reachable_inert videoIn evs : inert (run evs (constructor videoIn)).
Proof. apply inert_run, inert_constructor. Qed.

(** In such a state only a frame changes the session, and only to set its
    flag. *)
Lemma inert_session a e :
  inert a → is_Some (session a) →
  is_Some (session (step a e)) ∧
  session (step a e) ≫= layers = session a ≫= layers ∧
  (flag a = true → flag (step a e) = true).
Proof.
  intros (Hp & Hm & Hi & Hsc & _) [s Hs].
  assert (is_Some (session a) ∧ session a ≫= layers = session a ≫= layers ∧
          (flag a = true → flag a = true)) as Hsame
    by (split; [by eexists|done]).
  destruct e as [ls|key rs|pr cast|i r|c cast|c|c]; cbn [step].
  - replace (match session a with
             | Some _ => a
             | None => set_session (Some (fresh_session ls)) a
             end) with a by (by rewrite Hs).
    exact Hsame.
  - exact Hsame.
  - destruct (render_inert pr cast a Hm Hsc) as (_ & _ & _ & _ & _ & H).
    unfold flag.
    destruct (bootstrap_guard a); destruct H as (_ & -> & _); rewrite Hs;
      (split; [by eexists|done]).
  - unfold settle. by rewrite Hp.
  - unfold as_listener, handleSelectStart. by rewrite bind_eq, gets_eq, Hm.
  - unfold as_listener, handleSelectEnd. by rewrite bind_eq, gets_eq, Hm.
  - exact Hsame.
Qed.

Lemma inert_session_run evs a :
  inert a → is_Some (session a) →
  session (run evs a) ≫= layers = session a ≫= layers ∧
  (flag a = true → flag (run evs a) = true).
Proof.
  revert a. induction evs as [|e evs IH]; intros a Ha Hs; [done|].
  change (run (e :: evs) a) with (run evs (step a e)).
  destruct (inert_session a e Ha Hs) as (Hs' & Hl & Hf).
  destruct (IH (step a e) (inert_step a e Ha) Hs') as (Hl' & Hf').
  split; [by rewrite Hl', Hl|auto].
Qed.

Lemma inert_bootstraps a :
  inert a → bootstraps (log a) = if flag a then 1%nat else 0%nat.
Proof.
  intros (_ & _ & _ & _ & Hb & _).
  rewrite <- bootstraps_bootstrap_log, Hb. by destruct (flag a).
Qed.

Lemma inert_published a : inert a → published (log a) = [].
Proof.
  intros (_ & _ & _ & _ & Hb & _).
  rewrite <- published_bootstrap_log, Hb. by destruct (flag a).
Qed.

Lemma inert_plays key a : inert a → plays key (log a) = 0%nat.
Proof.
  intros (_ & _ & _ & _ & Hb & _).
  rewrite <- plays_bootstrap_log, Hb. by destruct (flag a).
Qed.

(** The frame that finds the guard true, in a run from the constructor. *)
Lemma bootstrap_frame videoIn pre pr cast :
  let a0 := run pre (constructor videoIn) in
  bootstrap_guard a0 = true →
  let a1 := step a0 (Frame pr cast) in
  (render_body pr cast a0).1 = inr no_createMediaLayer ∧
  inert a1 ∧ flag a1 = true ∧ is_Some (session a1) ∧
  session a1 ≫= layers = session a0 ≫= layers.
Proof.
  intros a0 Hg a1.
  pose proof (reachable_inert videoIn pre) as Ha0. fold a0 in Ha0.
  pose proof (inert_step a0 (Frame pr cast) Ha0) as Ha1. fold a1 in Ha1.
  destruct Ha0 as (_ & Hm & _ & Hsc & _).
  destruct (render_inert pr cast a0 Hm Hsc) as (_ & _ & _ & _ & _ & H).
  rewrite Hg in H. destruct H as (Hr & Hs & _).
  destruct (guard_session _ Hg) as [s Es].
  subst a1. cbn [step]. unfold flag. rewrite Hs, Es. done.
Qed.

(** *** The bootstrap is entered once *)

Lemma bootstrap_at_most_once videoIn evs :
  (bootstraps (log (run evs (constructor videoIn))) ≤ 1)%nat.
Proof.
  rewrite (inert_bootstraps _ (reachable_inert videoIn evs)).
  destruct (flag _); lia.
Qed.

Lemma bootstrap_exactly_once videoIn pre pr cast post :
  let a0 := run pre (constructor videoIn) in
  bootstrap_guard a0 = true →
  let a1 := step a0 (Frame pr cast) in
  flag a1 = true ∧ flag (run post a1) = true ∧
  bootstrap_guard (run post a1) = false ∧
  bootstraps (log (run post a1)) = 1%nat.
Proof.
  cbv zeta. intros Hg.
  destruct (bootstrap_frame videoIn pre pr cast Hg) as (_ & Ha1 & Hf & Hs & _).
  destruct (inert_session_run post _ Ha1 Hs) as (_ & Hf').
  specialize (Hf' Hf).
  split; [exact Hf|]. split; [exact Hf'|]. split; [by apply flag_guard|].
  by rewrite (inert_bootstraps _ (inert_run post _ Ha1)), Hf'.
Qed.

(** When the guard holds in a run from the constructor, the frame rejects
    with the TypeError of the factory call, and that is all the bootstrap
    ever does. *)
Lemma bootstrap_fails videoIn pre pr cast post :
  bootstrap_guard (run pre (constructor videoIn)) = true →
  (render_body pr cast (run pre (constructor videoIn))).1
  = inr no_createMediaLayer ∧
  inert (run (Frame pr cast :: post) (run pre (constructor videoIn))) ∧
  flag (run (Frame pr cast :: post) (run pre (constructor videoIn))) = true ∧
  session (run (Frame pr cast :: post) (run pre (constructor videoIn))) ≫= layers
  = session (run pre (constructor videoIn)) ≫= layers.
Proof.
  intros Hg.
  destruct (bootstrap_frame videoIn pre pr cast Hg) as (Hr & Ha1 & Hf & Hs & Hl).
  destruct (inert_session_run post _ Ha1 Hs) as (Hl' & Hf').
  split; [exact Hr|]. split; [exact (inert_run post _ Ha1)|].
  split; [exact (Hf' Hf)|].
  etrans; [exact Hl'|exact Hl].
Qed.

Lemma ready_guard :
  bootstrap_guard (run Scenario.ready (constructor Scenario.videoIn)) = true.
Proof. vm_compute. reflexivity. Qed.

(** C3, at the scenario of the claim: a session with a base layer, both
    videos at readiness level 4, then a frame.  The guard of the bootstrap
    holds, but the call of [createMediaLayer] raises a TypeError, which
    rejects the promise of [render]; and whatever events follow, no media
    layer is stored, no layer list is published, neither video is played,
    and the layer list of the session is still the base layer alone, of
    length 1. *)
Theorem ready_frame_publishes_nothing pr cast post :
  let a0 := run Scenario.ready (constructor Scenario.videoIn) in
  let a := run (Frame pr cast :: post) a0 in
  isVideosReady (videos a0) = true ∧ bootstrap_guard a0 = true ∧
  (render_body pr cast a0).1 = inr no_createMediaLayer ∧
  mediaLayers a = [] ∧ published (log a) = [] ∧
  plays "equirect" (log a) = 0%nat ∧ plays "quad" (log a) = 0%nat ∧
  session a ≫= layers = Some [Scenario.baseLayer].
Proof.
  cbv zeta.
  destruct (bootstrap_fails Scenario.videoIn Scenario.ready pr cast post ready_guard)
    as (Hr & Ha & _ & Hl).
  split; [vm_compute; reflexivity|]. split; [exact ready_guard|].
  split; [exact Hr|].
  split; [by destruct Ha as (_ & ? & _)|].
  split; [by apply inert_published|].
  split; [by apply inert_plays|]. split; [by apply inert_plays|].
  etrans; [exact Hl|]. vm_compute. reflexivity.
Qed.

(** C8: the factory call of the bootstrap fails, by the TypeError that the
    call of [createMediaLayer] raises on every frame on which the guard
    holds.  The error propagates to the caller of [render], whose promise
    rejects with it; and in the whole run, whatever events follow,
    [updateRenderState] is never called, no video is played, no media layer
    is stored and the layer list of the session stays as the session had
    it. *)
Theorem failed_factory_publishes_nothing videoIn pre pr cast post :
  let a0 := run pre (constructor videoIn) in
  bootstrap_guard a0 = true →
  let a := run (Frame pr cast :: post) a0 in
  (render_body pr cast a0).1 = inr no_createMediaLayer ∧
  errors (log a) = [RenderRejected no_createMediaLayer] ∧
  published (log a) = [] ∧
  (∀ key, plays key (log a) = 0%nat) ∧
  mediaLayers a = [] ∧
  session a ≫= layers = session a0 ≫= layers.
Proof.
  cbv zeta. intros Hg.
  destruct (bootstrap_fails videoIn pre pr cast post Hg) as (Hr & Ha & Hf & Hl).
  split; [exact Hr|].
  split; [destruct Ha as (_ & _ & _ & _ & _ & ->); by rewrite Hf|].
  split; [by apply inert_published|].
  split; [intros key; by apply inert_plays|].
  split; [by destruct Ha as (_ & ? & _)|].
  exact Hl.
Qed.

Lemma failed_factory_publishes_nothing_witness :
  errors (log (run [Frame true Scenario.miss; Frame true Scenario.hit_all;
                    SelectStart Controller0 Scenario.hit_all]
                   (run Scenario.ready (constructor Scenario.videoIn))))
  = [RenderRejected no_createMediaLayer].
Proof.
  refine (proj1 (proj2
            (failed_factory_publishes_nothing Scenario.videoIn Scenario.ready
               true Scenario.miss
               [Frame true Scenario.hit_all;
                SelectStart Controller0 Scenario.hit_all] _))).
  vm_compute. reflexivity.
Defined.

(** *** What does not concern a layer and its toolbar group *)

Section Keeps.
Context (key : string) (t : N).

Lemma keeps_emit e a :
  scene_op_of (Obj t) e = None → keeps key t a (emit e a).
Proof.
  intros He. repeat split. exists [e]. split; [done|].
  by rewrite scene_ops_cons, He.
Qed.

Lemma keeps_write_visible k b :
  k ≠ key → respects (keeps key t) (write_visible k b).
Proof.
  intros Hk a. unfold write_visible.
  destruct (isToolbarVisible a) as [m|] eqn:E; [|reflexivity].
  split; [|split; [done|]].
  - unfold visible. app_simpl. by rewrite E, lookup_insert_ne.
  - exists []. by rewrite app_nil_r.
Qed.

Lemma scene_op_of_add_other o :
  o ≠ Some (Obj t) → scene_op_of (Obj t) (SceneAdd o) = None.
Proof. intros Ho. destruct o as [o|]; [|done]. cbn. rewrite decide_False; congruence. Qed.

Lemma scene_op_of_remove_other o :
  o ≠ Some (Obj t) → scene_op_of (Obj t) (SceneRemove o) = None.
Proof. intros Ho. destruct o as [o|]; [|done]. cbn. rewrite decide_False; congruence. Qed.

Lemma add_other p o (g : gmap object3d node) :
  o ≠ Some (Obj t) → add p o g !! Obj t = g !! Obj t.
Proof.
  intros Ho. destruct o as [o|]; [|done]. cbn.
  rewrite lookup_insert_ne; congruence.
Qed.

Lemma remove_other p o (g : gmap object3d node) :
  o ≠ Some (Obj t) → remove p o g !! Obj t = g !! Obj t.
Proof.
  intros Ho. destruct o as [o|]; [|done]. cbn.
  destruct (decide (g !! o = Some p)); [|done].
  rewrite lookup_delete_ne; congruence.
Qed.

Lemma keeps_scene_add o : o ≠ Some (Obj t) → respects (keeps key t) (scene_add o).
Proof.
  intros Ho a. split; [done|]. split; [by apply add_other|].
  exists [SceneAdd o]. split; [done|].
  by rewrite scene_ops_cons, scene_op_of_add_other.
Qed.

Lemma keeps_scene_remove o :
  o ≠ Some (Obj t) → respects (keeps key t) (scene_remove o).
Proof.
  intros Ho a. split; [done|]. split; [by apply remove_other|].
  exists [SceneRemove o]. split; [done|].
  by rewrite scene_ops_cons, scene_op_of_remove_other.
Qed.

Lemma keeps_controller_attach c o :
  o ≠ Some (Obj t) → respects (keeps key t) (controller_attach c o).
Proof.
  intros Ho. destruct o as [o|]; [|apply respects_throw; apply _].
  intros a. split; [done|]. split; [by apply add_other|].
  by exists [ControllerAttach c o].
Qed.

Lemma keeps_controller_remove c o :
  o ≠ Some (Obj t) → respects (keeps key t) (controller_remove c o).
Proof.
  intros Ho a. split; [done|]. split; [by apply remove_other|].
  by exists [ControllerRemove c o].
Qed.

Lemma getIntersectPoint_other c g : getIntersectPoint c g ≠ Some (Obj t).
Proof. unfold getIntersectPoint. by destruct (g !! IntersectPoint c). Qed.

Lemma keeps_handleToolbarIntersections c objects cast :
  respects (keeps key t) (handleToolbarIntersections c objects cast).
Proof.
  unfold handleToolbarIntersections. destruct objects as [objects|];
    [|apply respects_ret; apply _].
  apply respects_bind; [apply _|apply respects_gets; apply _|]. intros ms.
  apply respects_bind; [apply _| |intros hidden].
  { apply respects_forEachAssign; [apply _|]. intros b x k.
    apply (respects_checkHidden _ b x k). }
  destruct hidden.
  - apply respects_bind; [apply _|apply respects_gets; apply _|]. intros g.
    apply respects_bind; [apply _| |intros; apply respects_ret; apply _].
    apply keeps_scene_remove, getIntersectPoint_other.
  - apply respects_bind; [apply _| |intros; apply respects_ret; apply _].
    destruct (0 <? _)%nat; [|apply respects_ret; apply _].
    by apply keeps_scene_add.
Qed.

Lemma fmap_Obj_other (o : option N) : o ≠ Some t → Obj <$> o ≠ Some (Obj t).
Proof. destruct o; cbn; congruence. Qed.

(** The turn of another layer in [handleSelectStart]. *)
Lemma keeps_selectStartLayer c cast x k :
  k ≠ key → toolbarGroup x ≠ t → glass x ≠ Some t →
  respects (keeps key t) (selectStartLayer c cast x k).
Proof.
  intros Hk Ht Hg. pose proof (fmap_Obj_other _ Hg) as Hg'.
  assert (Some (Obj (toolbarGroup x)) ≠ Some (Obj t)) as Ht' by congruence.
  unfold selectStartLayer.
  apply respects_bind; [apply _|apply respects_read_visible; apply _|].
  intros v. destruct (negb v).
  - apply respects_bind; [apply _|by apply keeps_write_visible|]. intros _.
    apply respects_bind; [apply _|by apply keeps_scene_add|]. intros _.
    destruct (glassLayer x); [by apply keeps_scene_add|apply respects_ret; apply _].
  - apply respects_bind; [apply _|apply keeps_handleToolbarIntersections|].
    intros [ints|]; [|apply respects_throw; apply _].
    destruct (length ints =? 0)%nat.
    + apply respects_bind; [apply _|by apply keeps_write_visible|]. intros _.
      apply respects_bind; [apply _|by apply keeps_scene_remove|]. intros _.
      by apply keeps_scene_remove.
    + apply respects_bind; [apply _| |intros _].
      { apply respects_modify. intros a. by apply keeps_emit. }
      destruct (glassLayer x);
        [by apply keeps_controller_attach|apply respects_ret; apply _].
Qed.

Lemma keeps_handleSelectEnd c a :
  (∀ kl, kl ∈ mediaLayers a → glass kl.2 ≠ Some t) →
  keeps key t a (handleSelectEnd c a).2.
Proof.
  intros H. unfold handleSelectEnd. rewrite bind_eq, gets_eq.
  apply respects_forEach; [apply _|]. intros k x Hin.
  unfold selectEndLayer. destruct (glassLayer x); [|apply respects_ret; apply _].
  apply respects_bind; [apply _| |intros _].
  - apply respects_modify. intros a0. by apply keeps_emit.
  - apply keeps_controller_remove, fmap_Obj_other. by apply (H (k, x)).
Qed.

Lemma keeps_onDisconnected c : respects (keeps key t) (onDisconnected c).
Proof.
  intros a. unfold onDisconnected. rewrite bind_eq, gets_eq.
  unfold this_toolbarGroup. by apply keeps_scene_remove.
Qed.

Lemma keeps_as_listener m a :
  keeps key t a (m a).2 → keeps key t a (as_listener m a).
Proof.
  intros H. unfold as_listener. destruct (m a) as [[[]|e] a']; [done|].
  etrans; [exact H|]. by apply keeps_emit.
Qed.

Lemma keeps_render pr cast a : keeps key t a (render pr cast a).
Proof.
  unfold render, as_async.
  assert (respects (keeps key t) (render_body pr cast)) as H.
  { unfold render_body.
    apply respects_bind; [apply _| |intros _].
    { unfold updateLayers. destruct pr; [|apply respects_ret; apply _].
      apply respects_bind; [apply _|apply respects_gets; apply _|]. intros ms.
      apply respects_forEach; [apply _|]. intros k x _.
      apply respects_modify. intros a0. by apply keeps_emit. }
    apply respects_bind; [apply _| |intros _].
    { apply respects_forOf; [apply _|]. intros c. unfold renderController.
      apply respects_bind; [apply _|apply respects_gets; apply _|]. intros ms.
      apply respects_bind; [apply _|apply keeps_handleToolbarIntersections|].
      intros; apply respects_ret; apply _. }
    apply respects_bind; [apply _|apply respects_gets; apply _|]. intros g.
    destruct g; [|apply respects_ret; apply _].
    intros a0. rewrite startBootstrap_eq. cbn [snd].
    etrans; [|by apply keeps_emit].
    repeat split. exists []. by rewrite app_nil_r. }
  specialize (H a). destruct (render_body pr cast a) as [[[]|e] a']; [done|].
  etrans; [exact H|]. by apply keeps_emit.
Qed.

End Keeps.

(** *** A select-start, layer by layer *)


Lemma forEach_app {A} (f : A → string → M unit) l1 l2 a :
  forEach f (l1 ++ l2) a
  = match forEach f l1 a with
    | (inl _, a1) => forEach f l2 a1
    | (inr e, a1) => (inr e, a1)
    end.
Proof.
  revert a. induction l1 as [|[k x] l1 IH]; intros a; [done|].
  cbn [app forEach]. rewrite !bind_eq.
  destruct (f x k a) as [[[]|e] a1]; [apply IH|done].
Qed.

(** The turn of a layer whose toolbar is hidden. *)
Lemma selectStartLayer_hidden c cast x k a m :
  isToolbarVisible a = Some m → default false (m !! k) = false →
  selectStartLayer c cast x k a
  = (inl tt,
     let a1 := emit (SceneAdd (Some (Obj (toolbarGroup x))))
                 (set_scene (add Scene (Some (Obj (toolbarGroup x))) (scene a))
                    (set_isToolbarVisible (Some (<[k := true]> m)) a)) in
     if glassLayer x
     then emit (SceneAdd (Obj <$> glass x))
            (set_scene (add Scene (Obj <$> glass x) (scene a1)) a1)
     else a1).
Proof.
  intros Hm Hv. unfold selectStartLayer.
  rewrite bind_eq, (read_visible_Some _ _ _ Hm), Hv. cbn [negb].
  rewrite bind_eq, (write_visible_Some _ _ _ _ Hm).
  unfold scene_add. msimpl. by destruct (glassLayer x).
Qed.

(** The turn of a layer whose toolbar is visible. *)
Lemma selectStartLayer_visible c cast x k a m :
  isToolbarVisible a = Some m → m !! k = Some true → (k, x) ∈ mediaLayers a →
  ∃ a0, same_boot a a0 ∧ (∀ key t, keeps key t a a0) ∧
    isToolbarVisible a0 = Some m ∧
    selectStartLayer c cast x k a
    = if (length (cast c (objects x)) =? 0)%nat then
        (inl tt,
         let a1 := emit (SceneRemove (Some (Obj (toolbarGroup x))))
                     (set_scene (remove Scene (Some (Obj (toolbarGroup x))) (scene a0))
                        (set_isToolbarVisible (Some (<[k := false]> m)) a0)) in
         emit (SceneRemove (Obj <$> glass x))
           (set_scene (remove Scene (Obj <$> glass x) (scene a1)) a1))
      else
        let a1 := emit (Update k (cast c (objects x))) a0 in
        if glassLayer x
        then controller_attach c (Obj <$> glass x) a1
        else (inl tt, a1).
Proof.
  intros Hm Hk Hin. unfold selectStartLayer.
  rewrite bind_eq, (read_visible_Some _ _ _ Hm), Hk. cbn [from_option id negb].
  rewrite bind_eq.
  pose proof (handleToolbarIntersections_visible c (objects x) cast a k x Hin) as Hr.
  unfold visible in Hr. rewrite Hm, Hk in Hr. specialize (Hr eq_refl).
  pose proof (same_boot_handleToolbarIntersections c (Some (objects x)) cast a) as HS.
  pose proof (λ key t,
    keeps_handleToolbarIntersections key t c (Some (objects x)) cast a) as HK.
  assert (isToolbarVisible
            (handleToolbarIntersections c (Some (objects x)) cast a).2 = Some m) as Hm0.
  { clear Hr HS HK. unfold handleToolbarIntersections.
    rewrite bind_eq, gets_eq, bind_eq, (checkHidden_all _ _ _ _ Hm).
    destruct (true && _); msimpl; [by unfold scene_remove|].
    destruct (0 <? _)%nat; by msimpl. }
  destruct (handleToolbarIntersections c (Some (objects x)) cast a) as [r a0].
  cbn [fst snd] in *. subst r. exists a0. split; [done|]. split; [done|].
  split; [done|].
  destruct (length (cast c (objects x)) =? 0)%nat.
  - rewrite bind_eq, (write_visible_Some _ _ _ _ Hm0). unfold scene_remove. by msimpl.
  - msimpl. by destruct (glassLayer x).
Qed.

(** With the dictionary in place and an overlay for every glass layer, the
    turn of a layer does not throw. *)
Lemma selectStartLayer_succeeds c cast x k a :
  is_Some (isToolbarVisible a) → (k, x) ∈ mediaLayers a →
  (glassLayer x = true → is_Some (glass x)) →
  (selectStartLayer c cast x k a).1 = inl tt.
Proof.
  intros [m Hm] Hin Hwf.
  destruct (m !! k) as [[]|] eqn:Hk.
  - destruct (selectStartLayer_visible c cast x k a m Hm Hk Hin)
      as (a0 & _ & _ & _ & ->).
    destruct (length _ =? 0)%nat; [done|].
    destruct (glassLayer x); [|done].
    destruct Hwf as [g ->]; done.
  - by rewrite (selectStartLayer_hidden c cast x k a m Hm) by (by rewrite Hk).
  - by rewrite (selectStartLayer_hidden c cast x k a m Hm) by (by rewrite Hk).
Qed.

Lemma layers_wf_elem ms k x :
  layers_wf ms = true → (k, x) ∈ ms → glassLayer x = true → is_Some (glass x).
Proof.
  unfold layers_wf. rewrite forallb_forall. intros H Hin Hg.
  apply list_elem_of_In, H in Hin. cbn in Hin. rewrite Hg in Hin. cbn in Hin.
  by apply bool_decide_eq_true in Hin.
Qed.

(** The turns of the other layers. *)
Lemma forEach_others c cast key t ms a :
  is_Some (isToolbarVisible a) →
  (∀ k x, (k, x) ∈ ms →
     (k, x) ∈ mediaLayers a ∧ (glassLayer x = true → is_Some (glass x)) ∧
     k ≠ key ∧ toolbarGroup x ≠ t ∧ glass x ≠ Some t) →
  ∃ a', forEach (selectStartLayer c cast) ms a = (inl tt, a') ∧
        same_boot a a' ∧ keeps key t a a'.
Proof.
  revert a. induction ms as [|[k x] ms IH]; intros a Hi H.
  - exists a. split; [done|]. split; reflexivity.
  - cbn [forEach]. rewrite bind_eq.
    destruct (H k x) as (Hin & Hwf & Hk & Ht & Hg); [by left|].
    pose proof (selectStartLayer_succeeds c cast x k a Hi Hin Hwf) as Hok.
    pose proof (same_boot_selectStartLayer c cast x k a) as HS.
    pose proof (keeps_selectStartLayer key t c cast x k Hk Ht Hg a) as HK.
    destruct (selectStartLayer c cast x k a) as [[[]|e] a1]; [|done].
    cbn [snd] in *.
    destruct (IH a1) as (a' & E & HS' & HK').
    { destruct HS as (_ & _ & _ & _ & Hi' & _). by apply Hi'. }
    { intros k' x' Hin'. destruct (H k' x') as (? & ? & ? & ? & ?); [by right|].
      repeat split; try done. destruct HS as (_ & _ & -> & _). done. }
    exists a'. split; [done|]. split; by etrans.
Qed.

(** *** A select-start while every toolbar is hidden *)

Lemma entry_insert_eq k b m a :
  entry k (set_isToolbarVisible (Some (<[k := b]> m)) a) = Some b.
Proof. unfold entry. cbn. apply lookup_insert_eq. Qed.




End MultipleLayersFacts.

(** ** The two applications together *)

Module Applications.
Import Three.

(** C2, at a toolbar that a disconnected controller took out of view, in the
    single-layer application: a select-start shows the toolbar and a
    controller is disconnected.  The toolbar group is then out of the scene,
    but the mark [isToolbarVisible] is still set, and the select-start that
    follows, whatever its controller and whatever its ray hits, does not add
    the toolbar group to the scene. *)
Theorem select_start_after_disconnect_shows_nothing c0 hits0 c1 c hits :
  let a := SingleLayer.run [SingleLayer.SelectStart c0 hits0;
                            SingleLayer.Disconnected c1]
                           SingleLayer.constructor in
  let a' := SingleLayer.step a (SingleLayer.SelectStart c hits) in
  in_scene SingleLayer.toolbarGroup (SingleLayer.scene a) = false ∧
  SingleLayer.isToolbarVisible a = true ∧
  in_scene SingleLayer.toolbarGroup (SingleLayer.scene a') = false.
Proof.
  intros a a'.
  destruct (SingleLayerFacts.select_start_hidden SingleLayer.constructor
              c0 hits0 eq_refl) as (Hv1 & _).
  destruct (SingleLayerFacts.disconnected_removes_toolbar
              (SingleLayer.step SingleLayer.constructor
                 (SingleLayer.SelectStart c0 hits0)) c1) as (Hs & Hv & _).
  cbn zeta in Hv1, Hs, Hv. rewrite Hv1 in Hv.
  change (SingleLayer.step
            (SingleLayer.step SingleLayer.constructor
               (SingleLayer.SelectStart c0 hits0))
            (SingleLayer.Disconnected c1)) with a in Hs, Hv.
  split; [exact Hs|]. split; [exact Hv|].
  destruct (SingleLayerFacts.select_start_spec a c hits) as (_ & H).
  cbn zeta in H. rewrite Hv in H.
  change (SingleLayer.handleToolbarIntersection c hits a) with a' in H.
  destruct (length hits =? 0)%nat.
  - destruct H as (_ & -> & _).
    apply bool_decide_eq_false_2. cbn [remove].
    destruct (decide (SingleLayer.scene a !! SingleLayer.toolbarGroup
                      = Some Scene)) as [E|E]; [|done].
    by rewrite lookup_delete_eq.
  - destruct H as (_ & -> & _). exact Hs.
Qed.

(** C4: the body of the bootstrap is entered at most once.  In every run of
    either application the log shows at most one entry into it; and from any
    reachable state in which the guard of [render] holds, the next frame sets
    the flag of the session before anything else of the bootstrap is done,
    and however many events follow, frames included, the log shows exactly
    one entry.  In the single-layer application the request for the
    reference space is then in flight; in the multi-layer application the
    flag stays set and the guard false ever after. *)
Theorem bootstrap_entered_once :
  (∀ evs,
     (SingleLayer.bootstraps
        (SingleLayer.log (SingleLayer.run evs SingleLayer.constructor)) ≤ 1)%nat) ∧
  (∀ pre post,
     let a := SingleLayer.run pre SingleLayer.constructor in
     SingleLayer.bootstrap_guard a = true →
     let a' := SingleLayer.step a SingleLayer.Frame in
     SingleLayer.flag a' = true ∧
     SingleLayer.pending a' = S (SingleLayer.pending a) ∧
     SingleLayer.bootstraps (SingleLayer.log (SingleLayer.run post a')) = 1%nat) ∧
  (∀ videoIn evs,
     (MultipleLayers.bootstraps
        (MultipleLayers.log
           (MultipleLayers.run evs (MultipleLayers.constructor videoIn))) ≤ 1)%nat) ∧
  (∀ videoIn pre pr cast post,
     let a := MultipleLayers.run pre (MultipleLayers.constructor videoIn) in
     MultipleLayers.bootstrap_guard a = true →
     let a' := MultipleLayers.step a (MultipleLayers.Frame pr cast) in
     MultipleLayers.flag a' = true ∧
     MultipleLayers.flag (MultipleLayers.run post a') = true ∧
     MultipleLayers.bootstrap_guard (MultipleLayers.run post a') = false ∧
     MultipleLayers.bootstraps (MultipleLayers.log (MultipleLayers.run post a'))
     = 1%nat).
Proof.
  split; [|split; [|split]].
  - apply SingleLayerFacts.single_bootstrap_at_most_once.
  - intros pre post a Hg a'.
    destruct (SingleLayerFacts.single_bootstrap_exactly_once pre post Hg) as (Hf & Hp & Hb).
    rewrite SingleLayerFacts.single_run_app in Hf, Hp.
    change (pre ++ SingleLayer.Frame :: post)
      with (pre ++ [SingleLayer.Frame] ++ post) in Hb.
    rewrite !SingleLayerFacts.single_run_app in Hb. done.
  - apply MultipleLayersFacts.bootstrap_at_most_once.
  - intros videoIn pre pr cast post a Hg a'.
    exact (MultipleLayersFacts.bootstrap_exactly_once videoIn pre pr cast post Hg).
Qed.

Lemma bootstrap_entered_once_witness :
  MultipleLayers.bootstraps
    (MultipleLayers.log
       (MultipleLayers.run
          [MultipleLayers.Frame true Scenario.miss;
           MultipleLayers.Frame false Scenario.hit_all]
          (MultipleLayers.step
             (MultipleLayers.run Scenario.ready
                (MultipleLayers.constructor Scenario.videoIn))
             (MultipleLayers.Frame true Scenario.miss)))) = 1%nat.
Proof.
  refine (proj2 (proj2 (proj2
            (proj2 (proj2 (proj2 bootstrap_entered_once))
               Scenario.videoIn Scenario.ready true Scenario.miss
               [MultipleLayers.Frame true Scenario.miss;
                MultipleLayers.Frame false Scenario.hit_all] _)))).
  vm_compute. reflexivity.
Defined.


(** C9 fails in the single-layer application.  With a session that has a
    layer list and a video at readiness level 1, a frame enters the
    bootstrap, and once the reference space is granted the layer is created,
    published and the video played. *)
Lemma single_layer_bootstraps_on_metadata :
  let a := SingleLayer.run Scenario.metadata_only SingleLayer.constructor in
  let a' := SingleLayer.run
              [SingleLayer.Frame;
               SingleLayer.Settle (Resolved (VRef 7)) (VRef 10)] a in
  SingleLayer.readyState (SingleLayer.video a) = 1%nat ∧
  SingleLayer.bootstrap_guard a = true ∧
  SingleLayer.log a' =
    [SingleLayer.EnterBootstrap; SingleLayer.RequestReferenceSpace "local";
     SingleLayer.CreateEquirectLayer (VRef 7) "stereo-top-bottom";
     SingleLayer.UpdateRenderState [VRef 10; Scenario.baseLayer];
     SingleLayer.Play].
Proof. vm_compute. repeat split. Qed.

(** C9, amended: in the multi-layer application the bootstrap starts only
    when every tracked video is at readiness level 4.  On a frame on which
    some tracked video is at another level the guard is false; the session
    with its flag, the videos, the suspended calls and the media layers are
    what they were; the log gains no effect of the bootstrap; and, as long as
    no media layer has been stored, [render] raises no error.  In the
    single-layer application the same holds of a video at readiness level
    0. *)
Theorem layers_created_only_when_ready :
  (∀ (a : MultipleLayers.App) pr cast,
     MultipleLayers.some_video_not_ready a →
     let a' := MultipleLayers.step a (MultipleLayers.Frame pr cast) in
     MultipleLayers.bootstrap_guard a = false ∧
     MultipleLayers.session a' = MultipleLayers.session a ∧
     MultipleLayers.videos a' = MultipleLayers.videos a ∧
     MultipleLayers.pending a' = MultipleLayers.pending a ∧
     MultipleLayers.mediaLayers a' = MultipleLayers.mediaLayers a ∧
     MultipleLayers.bootstrap_log (MultipleLayers.log a')
     = MultipleLayers.bootstrap_log (MultipleLayers.log a) ∧
     (MultipleLayers.mediaLayers a = [] →
      (MultipleLayers.render_body pr cast a).1 = inl tt ∧
      MultipleLayers.bootstrap_guard a' = false)) ∧
  (∀ (a : SingleLayer.App),
     SingleLayer.readyState (SingleLayer.video a) = 0%nat →
     let a' := SingleLayer.step a SingleLayer.Frame in
     SingleLayer.bootstrap_guard a = false ∧
     SingleLayer.session a' = SingleLayer.session a ∧
     SingleLayer.pending a' = SingleLayer.pending a ∧
     SingleLayer.log a' = SingleLayer.log a).
Proof.
  split.
  - apply MultipleLayersFacts.not_ready_frame_creates_nothing.
  - intros a Hr a'.
    assert (SingleLayer.bootstrap_guard a = false) as Hg.
    { unfold SingleLayer.bootstrap_guard. rewrite Hr.
      destruct (SingleLayer.session a); [|done]. by rewrite andb_false_r. }
    subst a'. cbn [SingleLayer.step].
    by rewrite SingleLayerFacts.single_render_guard_false.
Qed.

Lemma layers_created_only_when_ready_witness :
  let a := MultipleLayers.run
             [MultipleLayers.SessionStart (Some [Scenario.baseLayer]);
              MultipleLayers.VideoChange "equirect" 4;
              MultipleLayers.VideoChange "quad" 3]
             (MultipleLayers.constructor Scenario.videoIn) in
  let a' := MultipleLayers.step a (MultipleLayers.Frame true Scenario.miss) in
  MultipleLayers.bootstrap_guard a = false ∧
  MultipleLayers.session a' = MultipleLayers.session a ∧
  MultipleLayers.mediaLayers a' = MultipleLayers.mediaLayers a.
Proof.
  intros a a'.
  destruct (proj1 layers_created_only_when_ready a true Scenario.miss)
    as (Hg & Hs & _ & _ & Hm & _).
  - exists "quad", {| MultipleLayers.src := Scenario.videoIn;
                      MultipleLayers.readyState := 3 |}.
    split; [vm_compute; right; left|discriminate].
  - exact (conj Hg (conj Hs Hm)).
Defined.


End Applications.

(** ** More about the single-layer application *)

Module SingleLayerMore.
Import Three SingleLayer SingleLayerFacts.

(** *** The bootstrap, phase by phase *)

Lemma single_bootstrap_log_app l l' :
  bootstrap_log (l ++ l') = bootstrap_log l ++ bootstrap_log l'.
Proof. apply filter_app. Qed.

Lemma single_phase_flag p a : in_phase p a → p ≠ Idle → flag a = true.
Proof.
  intros Hp Hne. unfold flag.
  destruct p; try done; destruct Hp as (Hs & _); try done; by rewrite Hs.
Qed.

Lemma single_flag_guard a : flag a = true → bootstrap_guard a = false.
Proof.
  unfold flag, bootstrap_guard. destruct (session a) as [s|]; [|done].
  intros ->. cbn. by rewrite andb_false_r.
Qed.

(** Events that are no part of the bootstrap keep the session, the promises
    in flight and the bootstrap part of the log. *)
Lemma single_other_step a e :
  match e with Frame | Settle _ _ | SessionStart _ => False | _ => True end →
  session (step a e) = session a ∧ pending (step a e) = pending a ∧
  bootstrap_log (log (step a e)) = bootstrap_log (log a).
Proof.
  destruct e as [ls|v| |r l|c hits|c]; try done; intros _; cbn [step].
  - unfold handleToolbarIntersection.
    destruct (isToolbarVisible a); cbn [negb].
    + destruct (length hits =? 0)%nat; destruct (List.find isProgressBar hits);
        single_simpl; rewrite ?single_bootstrap_log_app, ?app_nil_r; done.
    + single_simpl. by rewrite single_bootstrap_log_app, app_nil_r.
  - single_simpl. by rewrite single_bootstrap_log_app, app_nil_r.
Qed.

Lemma single_phase_same p a a' :
  in_phase p a → session a' = session a → pending a' = pending a →
  bootstrap_log (log a') = bootstrap_log (log a) → in_phase p a'.
Proof.
  intros Hp Hs Hpe Hl. unfold in_phase, flag in *. rewrite Hs, Hpe, Hl. exact Hp.
Qed.

Lemma single_phase_constructor : in_phase Idle constructor.
Proof. by repeat split. Qed.

Lemma single_phase_step p a e :
  in_phase p a → in_phase (next_phase a p e) (step a e).
Proof.
  intros Hp. destruct e as [ls|v| |r l|c hits|c].
  - (* a session begins *)
    replace (next_phase a p (SessionStart ls)) with p by (by destruct p).
    cbn [step]. destruct (session a) as [s|] eqn:Hs; [done|].
    destruct p; unfold in_phase, flag in *; rewrite ?Hs in Hp; single_simpl;
      try done; by destruct Hp.
  - replace (next_phase a p (VideoChange v)) with p by (by destruct p).
    eapply single_phase_same; [done|..]; by apply single_other_step.
  - (* a frame *)
    cbn [step].
    assert (p = Idle ∨ p ≠ Idle) as [->|Hne] by (destruct p; auto).
    + cbn [next_phase]. destruct (bootstrap_guard a) eqn:Hg.
      * destruct Hp as (Hf & Hpe & Hl).
        destruct (single_render_guard_true a Hg) as (_ & Hp' & _ & _ & Hl').
        unfold in_phase. rewrite Hp', Hpe, Hl', single_bootstrap_log_app, Hl.
        split; [|done].
        unfold render. change (bootstrap_guard (updateProgressBar a))
          with (bootstrap_guard a). rewrite Hg. single_simpl.
        unfold flag, bootstrap_guard in *.
        destruct (session a) as [[f ls]|]; [|done]. cbn in Hf. by subst f.
      * rewrite single_render_guard_false by done.
        by eapply single_phase_same.
    + replace (next_phase a p Frame) with p by (by destruct p).
      rewrite single_render_guard_false
        by (by eapply single_flag_guard, single_phase_flag).
      by eapply single_phase_same.
  - (* the reference-space promise settles *)
    cbn [step]. unfold settle.
    destruct p as [|ls|refSpace l' base|reason];
      destruct Hp as (Hs & Hpe & Hl); rewrite Hpe.
    + by destruct r.
    + destruct r as [refSpace|reason]; cbn [next_phase].
      * unfold onReferenceSpace, in_phase. single_simpl.
        rewrite Hs, !single_bootstrap_log_app, Hl. done.
      * unfold in_phase, flag. single_simpl.
        rewrite Hs, single_bootstrap_log_app, Hl. done.
    + by destruct r.
    + by destruct r.
  - replace (next_phase a p (SelectStart c hits)) with p by (by destruct p).
    eapply single_phase_same; [done|..]; by apply single_other_step.
  - replace (next_phase a p (Disconnected c)) with p by (by destruct p).
    eapply single_phase_same; [done|..]; by apply single_other_step.
Qed.

Lemma single_phase_run p a evs :
  in_phase p a → in_phase (phase_after a p evs) (run evs a).
Proof.
  revert p a. induction evs as [|e evs IH]; intros p a Hp; [done|].
  cbn [phase_after run fold_left]. apply IH. by apply single_phase_step.
Qed.

Lemma single_phase_after_app a p evs1 evs2 :
  phase_after a p (evs1 ++ evs2)
  = phase_after (run evs1 a) (phase_after a p evs1) evs2.
Proof.
  revert a p. induction evs1 as [|e evs1 IH]; intros a p; [done|].
  cbn [app phase_after run fold_left]. apply IH.
Qed.

Lemma single_phase_after_cons a p e evs :
  phase_after a p (e :: evs) = phase_after (step a e) (next_phase a p e) evs.
Proof. reflexivity. Qed.

Lemma single_phase_after_quiet a p evs :
  p ≠ Idle → forallb quiet evs = true → phase_after a p evs = p.
Proof.
  revert a p. induction evs as [|e evs IH]; intros a p Hp H; [done|].
  cbn in H. apply andb_prop in H as [He H].
  cbn [phase_after]. replace (next_phase a p e) with p; [by apply IH|].
  destruct p; try done; by destruct e.
Qed.

Lemma single_phase_after_final a p evs :
  (∀ ls, p ≠ Awaiting ls) → p ≠ Idle → phase_after a p evs = p.
Proof.
  intros H1 H2. revert a. induction evs as [|e evs IH]; intros a; [done|].
  cbn [phase_after]. replace (next_phase a p e) with p; [apply IH|].
  destruct p; try done. by destruct (H1 ls).
Qed.

Lemma single_guard_idle p a : in_phase p a → bootstrap_guard a = true → p = Idle.
Proof.
  intros Hp Hg. destruct p; try done;
    (rewrite single_flag_guard in Hg; [done|]; by eapply single_phase_flag).
Qed.

Lemma single_published_bootstrap_log l : published (bootstrap_log l) = published l.
Proof.
  unfold published, bootstrap_log. induction l as [|e l IH]; [done|].
  destruct e; first [rewrite filter_cons_True by done
                    | rewrite filter_cons_False by (by intros [])];
    cbn; by rewrite IH.
Qed.

Lemma single_plays_bootstrap_log l : plays (bootstrap_log l) = plays l.
Proof.
  unfold plays, bootstrap_log. f_equal.
  apply list_filter_filter_l. by intros e ->.
Qed.

Lemma single_run_cons e evs a : run (e :: evs) a = run evs (step a e).
Proof. reflexivity. Qed.

(** The phase reached when the promise issued by the frame after [pre]
    settles, [mid] holding no settlement. *)
Lemma single_phase_settled pre mid post r l :
  bootstrap_guard (run pre constructor) = true →
  forallb quiet mid = true →
  let a0 := run pre constructor in
  in_phase (next_phase (run mid (step a0 Frame))
                       (Awaiting (session a0 ≫= layers)) (Settle r l))
           (run (pre ++ [Frame] ++ mid ++ [Settle r l] ++ post) constructor).
Proof.
  intros Hg Hmid a0.
  pose proof (single_phase_run Idle constructor
                (pre ++ [Frame] ++ mid ++ [Settle r l] ++ post)
                single_phase_constructor) as H.
  rewrite single_phase_after_app in H.
  rewrite (single_guard_idle _ _
             (single_phase_run Idle constructor pre single_phase_constructor) Hg)
    in H.
  fold a0 in H. cbn [app] in H.
  rewrite single_phase_after_cons in H. cbn [next_phase] in H.
  fold a0 in Hg. rewrite Hg in H.
  rewrite single_phase_after_app in H.
  rewrite (single_phase_after_quiet _ _ mid) in H by done.
  rewrite single_phase_after_cons in H.
  rewrite single_phase_after_final in H; [exact H|by destruct r|by destruct r].
Qed.

(** *** The bootstrap *)

(** X3: Single-layer [render]: when the reference space requested by the frame
    that starts the bootstrap is granted, one equirect layer is created in
    that space with the stereo-top-bottom layout, the list published is the
    new layer followed by the first layer the session had, and playback
    starts, once and after the publication, whatever else happens before,
    in between and afterwards. *)
Theorem equirect_layer_published_then_played pre mid post refSpace l :
  bootstrap_guard (run pre constructor) = true →
  forallb quiet mid = true →
  let base := first_layer (session (run pre constructor) ≫= layers) in
  let a := run (pre ++ [Frame] ++ mid ++ [Settle (Resolved refSpace) l] ++ post)
               constructor in
  bootstrap_log (log a) =
    [EnterBootstrap; RequestReferenceSpace "local";
     CreateEquirectLayer refSpace "stereo-top-bottom";
     UpdateRenderState [l; base]; Play] ∧
  published (log a) = [[l; base]] ∧
  plays (log a) = 1%nat ∧
  session a ≫= layers = Some [l; base].
Proof.
  intros Hg Hmid base a.
  destruct (single_phase_settled pre mid post (Resolved refSpace) l Hg Hmid)
    as (Hs & _ & Hl).
  fold a in Hs, Hl. fold base in Hs, Hl.
  split; [exact Hl|].
  rewrite <- single_published_bootstrap_log, <- single_plays_bootstrap_log, Hl, Hs.
  done.
Qed.

Lemma equirect_layer_published_then_played_witness :
  let a := run (Scenario.metadata_only
                ++ [Frame] ++ [Frame; SelectStart Controller0 []]
                ++ [Settle (Resolved (VRef 2)) (VRef 3)] ++ [Frame]) constructor in
  published (log a) = [[VRef 3; Scenario.baseLayer]] ∧ plays (log a) = 1%nat.
Proof.
  intros a.
  destruct (equirect_layer_published_then_played Scenario.metadata_only
              [Frame; SelectStart Controller0 []] [Frame] (VRef 2) (VRef 3))
    as (_ & Hp & Hq & _); [reflexivity|reflexivity|].
  split; [exact Hp|exact Hq].
Defined.

(** X4: Single-layer [render]: the promise of [requestReferenceSpace] has no
    rejection handler.  When it rejects, the rejection goes unhandled, no
    layer is created, nothing is published or played, and as the flag of
    the session stays set the bootstrap is never entered again. *)
Theorem rejected_reference_space_is_final pre mid post reason l :
  bootstrap_guard (run pre constructor) = true →
  forallb quiet mid = true →
  let a := run (pre ++ [Frame] ++ mid ++ [Settle (Rejected reason) l] ++ post)
               constructor in
  bootstrap_log (log a) =
    [EnterBootstrap; RequestReferenceSpace "local"; Unhandled reason] ∧
  published (log a) = [] ∧
  plays (log a) = 0%nat ∧
  flag a = true ∧
  bootstrap_guard a = false.
Proof.
  intros Hg Hmid a.
  destruct (single_phase_settled pre mid post (Rejected reason) l Hg Hmid)
    as (Hf & _ & Hl).
  fold a in Hf, Hl.
  split; [exact Hl|].
  rewrite <- single_published_bootstrap_log, <- single_plays_bootstrap_log, Hl.
  repeat split; [done|]. by apply single_flag_guard.
Qed.

Lemma rejected_reference_space_is_final_witness :
  let a := run (Scenario.metadata_only
                ++ [Frame] ++ [Frame]
                ++ [Settle (Rejected (HostError 9)) VUndefined]
                ++ [Frame; Frame]) constructor in
  published (log a) = [] ∧ plays (log a) = 0%nat.
Proof.
  intros a.
  destruct (rejected_reference_space_is_final Scenario.metadata_only
              [Frame] [Frame; Frame] (HostError 9) VUndefined)
    as (_ & Hp & Hq & _); [reflexivity|reflexivity|].
  split; [exact Hp|exact Hq].
Defined.

(** X5: Single-layer [render]: in every run the bootstrap part of the log has
    one of four shapes.  So the reference space is requested at most once
    and only after the flag is set, at most one layer is created, at most
    one list is published, and [play] is called at most once and never
    before the publication. *)
Theorem single_bootstrap_log_shape evs :
  let l := bootstrap_log (log (run evs constructor)) in
  l = [] ∨
  l = [EnterBootstrap; RequestReferenceSpace "local"] ∨
  (∃ refSpace equirectLayer base,
     l = [EnterBootstrap; RequestReferenceSpace "local";
          CreateEquirectLayer refSpace "stereo-top-bottom";
          UpdateRenderState [equirectLayer; base]; Play]) ∨
  (∃ reason,
     l = [EnterBootstrap; RequestReferenceSpace "local"; Unhandled reason]).
Proof.
  intros l. subst l.
  pose proof (single_phase_run Idle constructor evs single_phase_constructor) as H.
  destruct (phase_after constructor Idle evs) as [|ls|refSpace eq base|reason];
    destruct H as (_ & _ & Hl).
  - by left.
  - by right; left.
  - right; right; left. by exists refSpace, eq, base.
  - right; right; right. by exists reason.
Qed.

(** *** The toolbar *)

Lemma scene_inv_step a e : scene_inv a → scene_inv (step a e).
Proof.
  unfold scene_inv. intros IH.
  destruct e as [ls|v| |r l|c hits|c].
  - destruct (session_start_spec a ls) as (_ & -> & -> & _). exact IH.
  - exact IH.
  - rewrite visible_other_step by done. cbn [step].
    destruct (bootstrap_guard a) eqn:Hg.
    + destruct (single_render_guard_true a Hg) as (_ & _ & _ & -> & _). exact IH.
    + rewrite single_render_guard_false by done. exact IH.
  - cbn [step]. destruct (settle_spec a r l) as (_ & -> & -> & _). exact IH.
  - cbn [step]. destruct (select_start_spec a c hits) as (_ & H).
    destruct (isToolbarVisible a).
    + destruct (length hits =? 0)%nat.
      * destruct H as (_ & -> & _). intros Hin.
        apply bool_decide_eq_true_1 in Hin. unfold remove in Hin.
        destruct (decide (scene a !! toolbarGroup = Some Scene)) as [E|E];
          [by rewrite lookup_delete_eq in Hin|done].
      * by destruct H as (-> & _).
    + by destruct H as (-> & _).
  - destruct (disconnected_removes_toolbar a c) as (Hs & _). cbn zeta in Hs.
    by rewrite Hs.
Qed.

(** X6: Single-layer application: in every run, whenever the toolbar group is
    in the scene the toolbar is marked visible.  (Not the other way round: a
    disconnected controller removes the group and leaves the mark.) *)
Theorem toolbar_in_scene_is_marked_visible evs :
  let a := run evs constructor in
  in_scene toolbarGroup (scene a) = true → isToolbarVisible a = true.
Proof.
  intros a. subst a. change (scene_inv (run evs constructor)).
  assert (∀ a, scene_inv a → scene_inv (run evs a)) as H.
  { induction evs as [|e evs IH]; intros a Ha; [done|].
    rewrite single_run_cons. by apply IH, scene_inv_step. }
  apply H. intros Hin. by vm_compute in Hin.
Qed.

Lemma toolbar_in_scene_is_marked_visible_witness :
  isToolbarVisible (run [SelectStart Controller0 []] constructor) = true.
Proof.
  apply (toolbar_in_scene_is_marked_visible [SelectStart Controller0 []]).
  reflexivity.
Defined.

(** X7: [handleToolbarIntersection] after [setupVR]'s disconnected listener:
    when a controller disconnects while the toolbar is shown, the mark stays
    set, so the next select-start that points away from the toolbar only
    clears the mark, and it takes one more select-start to bring the toolbar
    back into the scene. *)
Theorem toolbar_returns_on_second_select_start a c c1 c2 hits :
  isToolbarVisible a = true →
  let a1 := step (step a (Disconnected c)) (SelectStart c1 []) in
  let a2 := step a1 (SelectStart c2 hits) in
  in_scene toolbarGroup (scene a1) = false ∧ isToolbarVisible a1 = false ∧
  in_scene toolbarGroup (scene a2) = true ∧ isToolbarVisible a2 = true.
Proof.
  intros Hv a1 a2.
  destruct (disconnected_removes_toolbar a c) as (_ & Hv' & _). cbn zeta in Hv'.
  rewrite Hv in Hv'.
  destruct (select_start_visible_no_hit _ c1 Hv') as (Hv1 & Hs1 & _).
  destruct (select_start_hidden _ c2 hits Hv1) as (Hv2 & Hs2 & _).
  done.
Qed.

Lemma toolbar_returns_on_second_select_start_witness :
  let a := run [SelectStart Controller0 []] constructor in
  let a1 := step (step a (Disconnected Controller1)) (SelectStart Controller0 []) in
  in_scene toolbarGroup (scene a1) = false ∧
  in_scene toolbarGroup (scene (step a1 (SelectStart Controller0 []))) = true.
Proof.
  intros a a1.
  destruct (toolbar_returns_on_second_select_start a Controller1 Controller0
              Controller0 []) as (H1 & _ & H2 & _); [reflexivity|].
  split; [exact H1|exact H2].
Defined.

(** X8: Frames, load events of the video, a session that begins and the
    settlement of the reference-space promise leave the scene graph and the
    mark of the toolbar as they are: only select-starts and disconnected
    controllers touch them. *)
Theorem toolbar_untouched_without_controller_events evs a :
  forallb (λ e, match e with
                | SelectStart _ _ | Disconnected _ => false
                | _ => true
                end) evs = true →
  scene (run evs a) = scene a ∧
  isToolbarVisible (run evs a) = isToolbarVisible a.
Proof.
  revert a. induction evs as [|e evs IH]; intros a H; [done|].
  cbn [forallb] in H. apply andb_prop in H as [He H].
  rewrite single_run_cons.
  destruct (IH (step a e) H) as (-> & ->).
  destruct e as [ls|v| |r l|c hits|c]; try done.
  - by destruct (session_start_spec a ls) as (_ & -> & -> & _).
  - cbn [step]. destruct (bootstrap_guard a) eqn:Hg.
    + by destruct (single_render_guard_true a Hg) as (_ & _ & -> & -> & _).
    + by rewrite single_render_guard_false.
  - cbn [step]. by destruct (settle_spec a r l) as (_ & -> & -> & _).
Qed.

Lemma toolbar_untouched_without_controller_events_witness :
  let a := run [SelectStart Controller0 []] constructor in
  let evs := Scenario.metadata_only
             ++ [Frame; Settle (Resolved (VRef 2)) (VRef 3); Frame] in
  in_scene toolbarGroup (scene (run evs a)) = true ∧
  isToolbarVisible (run evs a) = true.
Proof.
  intros a evs.
  destruct (toolbar_untouched_without_controller_events evs a) as (-> & ->);
    [reflexivity|].
  split; reflexivity.
Defined.

(** *** Seeking *)

(** X9: [handleToolbarIntersection] on a visible toolbar whose ray hits a
    progress bar: the video seeks to the fraction [(x + 1) / 2] of its
    duration, [x] being the first hit on one of the two bars, the played bar
    gets the scale [x + 1] at once, and the toolbar stays where it is. *)
Theorem select_start_on_progress_bar_seeks a c hits h :
  isToolbarVisible a = true →
  List.find isProgressBar hits = Some h →
  (0 < duration (video a))%Q →
  let a' := step a (SelectStart c hits) in
  (currentTime (video a') == (hit_x h + 1) / 2 * duration (video a))%Q ∧
  (scale_x (redProgressBar a') == hit_x h + 1)%Q ∧
  (scale_x (whiteProgressBar a') == 1 - hit_x h)%Q ∧
  isToolbarVisible a' = true ∧ scene a' = scene a ∧ log a' = log a.
Proof.
  intros Hv Hf Hd a'. subst a'. cbn [step]. unfold handleToolbarIntersection.
  rewrite Hv, Hf. cbn [negb].
  destruct hits as [|h0 hits]; [done|]. cbn [length Nat.eqb].
  pose proof (duration_nonzero a Hd) as Hnz.
  unfold setVideoCurrentTime, updateProgressBar.
  cbn [video set_video set_bars redProgressBar whiteProgressBar scale_x
       currentTime duration isToolbarVisible scene log].
  repeat split; try done; field; done.
Qed.

Lemma select_start_on_progress_bar_seeks_witness :
  let a := set_isToolbarVisible true
             (set_video {| readyState := 4; currentTime := 0; duration := 120 |}
                        constructor) in
  let hits := [ {| hit_name := "panel"; hit_x := 0 |};
                {| hit_name := "white progress bar"; hit_x := 1 # 2 |} ] in
  (currentTime (video (step a (SelectStart Controller0 hits))) == 90)%Q.
Proof.
  intros a hits.
  destruct (select_start_on_progress_bar_seeks a Controller0 hits
              {| hit_name := "white progress bar"; hit_x := 1 # 2 |})
    as (H & _); [reflexivity|reflexivity|reflexivity|].
  rewrite H. reflexivity.
Defined.

(** X10: [handleToolbarIntersection] on a visible toolbar whose ray hits the
    panel but neither bar changes nothing at all. *)
Theorem select_start_on_panel_changes_nothing a c hits :
  isToolbarVisible a = true →
  hits ≠ [] →
  List.find isProgressBar hits = None →
  step a (SelectStart c hits) = a.
Proof.
  intros Hv Hne Hf. cbn [step]. unfold handleToolbarIntersection.
  rewrite Hv, Hf. cbn [negb]. by destruct hits.
Qed.

Lemma select_start_on_panel_changes_nothing_witness :
  let a := set_isToolbarVisible true constructor in
  step a (SelectStart Controller0 [ {| hit_name := "panel"; hit_x := 0 |} ]) = a.
Proof.
  intros a.
  apply (select_start_on_panel_changes_nothing a Controller0).
  - reflexivity.
  - discriminate.
  - reflexivity.
Defined.

(** *** The playback buttons *)

(** X11: [onRestart] of [createUI], then the update of the progress bar done by
    the next frame: the played bar collapses at the left end of the bar
    and the remaining bar spans its whole width. *)
Theorem restart_empties_played_bar a :
  (0 < duration (video a))%Q →
  let a' := updateProgressBar (onRestart a) in
  (currentTime (video a') == 0 ∧
   scale_x (redProgressBar a') == 0 ∧
   position_x (redProgressBar a') == -1 ∧
   scale_x (whiteProgressBar a') == 2 ∧
   left_edge (whiteProgressBar a') == -1 ∧
   right_edge (whiteProgressBar a') == 1)%Q.
Proof.
  intros Hd a'. subst a'.
  pose proof (duration_nonzero a Hd) as Hnz.
  unfold onRestart, updateProgressBar, left_edge, right_edge, geometryWidth.
  cbn [video set_video set_bars redProgressBar whiteProgressBar scale_x
       position_x currentTime duration].
  repeat split; try done; field; done.
Qed.

Lemma restart_empties_played_bar_witness :
  let a := set_video {| readyState := 4; currentTime := 30; duration := 120 |}
                     constructor in
  (scale_x (whiteProgressBar (updateProgressBar (onRestart a))) == 2)%Q.
Proof.
  intros a.
  refine (proj1 (proj2 (proj2 (proj2 (restart_empties_played_bar a _))))).
  reflexivity.
Defined.

End SingleLayerMore.

(** ** More about the multi-layer application *)

Module MultipleLayersMore.
Import Three MultipleLayers MultipleLayersFacts.

#[local] Existing Instance same_boot_preorder.

(** *** Helpers *)

#[local] Instance same_marks_preorder : PreOrder same_marks.
Proof.
  split.
  - by intros a.
  - intros a b c (H1 & H2) (H3 & H4). split; congruence.
Qed.

Ltac marks_step :=
  lazymatch goal with
  | |- respects _ (_ ≫= _) => apply respects_bind; [apply _| |intros ?]
  | |- respects _ (mret _) => apply respects_ret; apply _
  | |- respects _ (throw _) => apply respects_throw; apply _
  | |- respects _ (gets _) => apply respects_gets; apply _
  | |- respects _ (read_visible _) => apply respects_read_visible; apply _
  | |- respects _ (modify _) => apply respects_modify; intros ?; done
  | |- respects _ (forEachAssign _ _ _) =>
      apply respects_forEachAssign; [apply _|intros ? ? ?]
  | |- respects _ (forOf _ _) => apply respects_forOf; [apply _|intros ?]
  | |- respects _ (forEach _ _) => apply respects_forEach; [apply _|intros ? ? _]
  | |- respects _ (if ?b then _ else _) => destruct b
  | |- respects _ (match ?x with _ => _ end) => destruct x
  end.

Lemma same_marks_render_body pr cast : respects same_marks (render_body pr cast).
Proof.
  unfold render_body, updateLayers, renderController, handleToolbarIntersections,
    startBootstrap, scene_add, scene_remove.
  repeat marks_step.
Qed.

Lemma same_marks_handleSelectEnd c : respects same_marks (handleSelectEnd c).
Proof.
  unfold handleSelectEnd, selectEndLayer, controller_remove.
  repeat marks_step.
Qed.

Lemma same_marks_step a e : leaves_marks e = true → same_marks a (step a e).
Proof.
  intros He. destruct e as [ls|key rs|pr cast|i r|c cast|c|c]; try done; cbn [step].
  - by destruct (session a).
  - unfold render, as_async.
    pose proof (same_marks_render_body pr cast a) as H.
    by destruct (render_body pr cast a) as [[[]|e] a'].
  - unfold as_listener.
    pose proof (same_marks_handleSelectEnd c a) as H.
    by destruct (handleSelectEnd c a) as [[[]|e] a'].
Qed.

Lemma run_cons e evs a : run (e :: evs) a = run evs (step a e).
Proof. reflexivity. Qed.

(** What [forEach] logs when its body only records a call. *)
Lemma forEach_emit {A} (f : string → effect) (ms : list (string * A)) a :
  ∃ a', forEach (λ (_ : A) key, modify (emit (f key))) ms a = (inl tt, a') ∧
        session a' = session a ∧ videos a' = videos a ∧
        mediaLayers a' = mediaLayers a ∧
        isToolbarVisible a' = isToolbarVisible a ∧ scene a' = scene a ∧
        pending a' = pending a ∧ log a' = log a ++ (f <$> ms.*1).
Proof.
  revert a. induction ms as [|[k v] ms IH]; intros a; cbn [forEach].
  - exists a. rewrite ret_eq. repeat split. by rewrite app_nil_r.
  - rewrite bind_eq, modify_eq. destruct (IH (emit (f k) a)) as (a' & -> & H).
    exists a'. split; [done|]. destruct H as (-> & -> & -> & -> & -> & -> & ->).
    repeat split. app_simpl. by rewrite <- app_assoc.
Qed.

Lemma updateLayers_spec pr a :
  ∃ a', updateLayers pr a = (inl tt, a') ∧
        session a' = session a ∧ videos a' = videos a ∧
        mediaLayers a' = mediaLayers a ∧
        isToolbarVisible a' = isToolbarVisible a ∧ scene a' = scene a ∧
        pending a' = pending a ∧
        log a' = log a ++ (if pr then UpdateOnRender <$> (mediaLayers a).*1 else []).
Proof.
  destruct pr; cbn [updateLayers].
  - rewrite bind_eq, gets_eq. apply forEach_emit.
  - exists a. rewrite ret_eq. repeat split. by rewrite app_nil_r.
Qed.

(** *** Media layers without the dictionary of visibility *)

Lemma handleToolbarIntersections_no_dictionary c objects cast a :
  mediaLayers a ≠ [] → isToolbarVisible a = None →
  handleToolbarIntersections c (Some objects) cast a
  = (inr (TypeError "isToolbarVisible is undefined"), a).
Proof.
  intros Hms Hd. unfold handleToolbarIntersections. rewrite bind_eq, gets_eq.
  destruct (mediaLayers a) as [|[k x] ms]; [done|].
  by rewrite bind_eq, (checkHidden_undefined _ _ _ _ _ Hd).
Qed.

Lemma render_no_dictionary pr cast a :
  mediaLayers a ≠ [] → isToolbarVisible a = None →
  let a' := render pr cast a in
  session a' = session a ∧ pending a' = pending a ∧ scene a' = scene a ∧
  mediaLayers a' = mediaLayers a ∧ isToolbarVisible a' = None ∧
  log a' = log a ++ (if pr then UpdateOnRender <$> (mediaLayers a).*1 else [])
                 ++ [RenderRejected (TypeError "isToolbarVisible is undefined")].
Proof.
  intros Hms Hd a'. subst a'. unfold render, as_async, render_body.
  rewrite bind_eq.
  destruct (updateLayers_spec pr a) as (a1 & -> & Hs & _ & Hm & Hi & Hsc & Hp & Hl).
  unfold controllers. cbn [forOf]. rewrite !bind_eq.
  assert (renderController cast Controller0 a1
          = (inr (TypeError "isToolbarVisible is undefined"), a1)) as ->.
  { unfold renderController. rewrite bind_eq, gets_eq, bind_eq.
    by rewrite handleToolbarIntersections_no_dictionary by congruence. }
  app_simpl. rewrite Hs, Hp, Hsc, Hm, Hi, Hl, <- app_assoc. done.
Qed.

Lemma select_start_no_dictionary c cast a :
  mediaLayers a ≠ [] → isToolbarVisible a = None →
  step a (SelectStart c cast)
  = emit (ListenerThrew (TypeError "isToolbarVisible is undefined")) a.
Proof.
  intros Hms Hd. cbn [step]. unfold as_listener, handleSelectStart.
  rewrite bind_eq, gets_eq.
  destruct (mediaLayers a) as [|[k x] ms]; [done|].
  cbn [forEach]. rewrite bind_eq. unfold selectStartLayer.
  by rewrite bind_eq, (read_visible_None _ _ Hd).
Qed.

(** X15: [render], [handleToolbarIntersections] and [handleSelectStart] with a
    media layer stored and no dictionary of visibility (the state between
    the storing of the equirect layer and [hideToolbars]): the frame calls
    [updateOnRender] on the stored layers when presenting and then its
    promise rejects with a TypeError, before the guard of the bootstrap is
    looked at; the select-start listener throws the same error and does
    nothing else. *)
Theorem stored_layer_without_dictionary_throws a pr c cast :
  mediaLayers a ≠ [] → isToolbarVisible a = None →
  let undefined_dictionary := TypeError "isToolbarVisible is undefined" in
  log (step a (Frame pr cast))
  = log a ++ (if pr then UpdateOnRender <$> (mediaLayers a).*1 else [])
          ++ [RenderRejected undefined_dictionary] ∧
  session (step a (Frame pr cast)) = session a ∧
  pending (step a (Frame pr cast)) = pending a ∧
  scene (step a (Frame pr cast)) = scene a ∧
  step a (SelectStart c cast) = emit (ListenerThrew undefined_dictionary) a.
Proof.
  intros Hms Hd e.
  destruct (render_no_dictionary pr cast a Hms Hd) as (Hs & Hp & Hsc & _ & _ & Hl).
  split; [exact Hl|]. split; [exact Hs|]. split; [exact Hp|]. split; [exact Hsc|].
  by apply select_start_no_dictionary.
Qed.

Lemma stored_layer_without_dictionary_throws_witness :
  let a := Scenario.half_stored in
  log (step a (Frame true Scenario.miss))
  = log a ++ [UpdateOnRender "equirect";
              RenderRejected (TypeError "isToolbarVisible is undefined")].
Proof.
  intros a.
  destruct (stored_layer_without_dictionary_throws a true Controller0 Scenario.miss)
    as (H & _); [discriminate|reflexivity|].
  exact H.
Defined.

(** *** The bootstrap *)

Lemma bootstrap_log_elem e l : e ∈ l → bootstrap_effect e = true → e ∈ bootstrap_log l.
Proof. intros Hin He. apply list_elem_of_filter. by rewrite He. Qed.

(** X13: Multi-layer [render], in every run from the constructor: of the
    bootstrap the log has nothing, or the entry into it and nothing else.
    No call of [createMediaLayer] is ever made (the name is not a method of
    the factory), [updateRenderState] is never called and no video is
    played. *)
Theorem bootstrap_stops_at_the_factory_call videoIn evs :
  let l := log (run evs (constructor videoIn)) in
  (bootstrap_log l = [] ∨ bootstrap_log l = [EnterBootstrap]) ∧
  (∀ key layerType, CreateMediaLayer key layerType ∉ l) ∧
  published l = [] ∧
  (∀ key, plays key l = 0%nat).
Proof.
  intros l. subst l.
  pose proof (reachable_inert videoIn evs) as Ha.
  split; [|split; [|split]].
  - destruct Ha as (_ & _ & _ & _ & -> & _). destruct (flag _); auto.
  - intros key layerType Hin.
    apply bootstrap_log_elem in Hin; [|done].
    destruct Ha as (_ & _ & _ & _ & Hb & _). rewrite Hb in Hin.
    destruct (flag _).
    + by apply list_elem_of_singleton in Hin.
    + by apply elem_of_nil in Hin.
  - by apply inert_published.
  - intros key. by apply inert_plays.
Qed.

(** X14: Multi-layer application, in every run from the constructor: no
    media layer is stored, the dictionary of visibility is never created
    ([hideToolbars] is never reached), and no call of [render] is ever
    suspended, so that nothing resumes: the settlement of a promise changes
    nothing. *)
Theorem no_layer_is_ever_stored videoIn evs :
  let a := run evs (constructor videoIn) in
  mediaLayers a = [] ∧ isToolbarVisible a = None ∧ pending a = [] ∧
  ∀ i r, step a (Settle i r) = a.
Proof.
  intros a. subst a.
  destruct (reachable_inert videoIn evs) as (Hp & Hm & Hi & _).
  split; [done|]. split; [done|]. split; [done|].
  intros i r. cbn [step]. unfold settle. by rewrite Hp.
Qed.

(** X16: Multi-layer [render], in every run from the constructor: the only
    error of the run is the TypeError of the frame that entered the
    bootstrap, there if and only if the flag of the session is set.  On any
    further frame [render] rejects exactly when the guard of the bootstrap
    holds, and the select-start listener never throws. *)
Theorem only_the_bootstrap_frame_rejects videoIn evs :
  let a := run evs (constructor videoIn) in
  errors (log a)
  = (if flag a then [RenderRejected no_createMediaLayer] else []) ∧
  (∀ pr cast,
     (render_body pr cast a).1
     = if bootstrap_guard a then inr no_createMediaLayer else inl tt) ∧
  (∀ c cast, (handleSelectStart c cast a).1 = inl tt).
Proof.
  intros a. subst a.
  destruct (reachable_inert videoIn evs) as (_ & Hm & _ & Hsc & _ & He).
  split; [exact He|]. split.
  - intros pr cast.
    destruct (render_inert pr cast _ Hm Hsc) as (_ & _ & _ & _ & _ & H).
    by destruct (bootstrap_guard _); destruct H as (-> & _).
  - intros c cast. unfold handleSelectStart. by rewrite bind_eq, gets_eq, Hm.
Qed.


(** *** The marks of the toolbars *)

(** X17: Multi-layer application: frames (hovering included), select-ends,
    disconnected controllers, load events of the videos and the start of a
    session never change the dictionary of visibility or the stored media
    layers; only select-starts and the settlement of the factory promises
    do. *)
Theorem marks_change_only_on_select_start_or_settle evs a :
  forallb leaves_marks evs = true →
  isToolbarVisible (run evs a) = isToolbarVisible a ∧
  mediaLayers (run evs a) = mediaLayers a.
Proof.
  revert a. induction evs as [|e evs IH]; intros a H; [done|].
  cbn [forallb] in H. apply andb_prop in H as [He H].
  rewrite run_cons. destruct (IH (step a e) H) as (-> & ->).
  by apply same_marks_step.
Qed.

Lemma marks_change_only_on_select_start_or_settle_witness :
  let evs := [Frame true Scenario.hit_all; SelectEnd Controller0;
              Disconnected Controller1; VideoChange "quad" 2;
              Frame true Scenario.miss] in
  visible "equirect" (run evs Scenario.dragging) = true ∧
  visible "quad" (run evs Scenario.dragging) = true.
Proof.
  intros evs.
  destruct (marks_change_only_on_select_start_or_settle evs Scenario.dragging)
    as (H & _); [reflexivity|].
  unfold visible. rewrite H. split; reflexivity.
Defined.

(** *** The end of a drag *)

Lemma only_detaches_refl c g : only_detaches c g g.
Proof. intros o. by left. Qed.

Lemma only_detaches_trans c g1 g2 g3 :
  only_detaches c g1 g2 → only_detaches c g2 g3 → only_detaches c g1 g3.
Proof.
  intros H1 H2 o. destruct (H1 o) as [E1|[E1 E1']], (H2 o) as [E2|[E2 E2']].
  - left. congruence.
  - right. split; congruence.
  - right. split; congruence.
  - congruence.
Qed.

Lemma only_detaches_remove c o g : only_detaches c g (remove (Ctrl c) o g).
Proof.
  intros o'. destruct o as [o|]; [|by left]. cbn [remove].
  destruct (decide (g !! o = Some (Ctrl c))) as [E|E]; [|by left].
  destruct (decide (o' = o)) as [->|Hne].
  - right. by rewrite lookup_delete_eq.
  - left. by rewrite lookup_delete_ne.
Qed.

Lemma remove_detached c o (g : gmap object3d node) :
  remove (Ctrl c) (Some o) g !! o ≠ Some (Ctrl c).
Proof.
  cbn [remove]. destruct (decide (g !! o = Some (Ctrl c))) as [E|E]; [|done].
  by rewrite lookup_delete_eq.
Qed.

Lemma only_detaches_detached c o g g' :
  only_detaches c g g' → g !! o ≠ Some (Ctrl c) → g' !! o ≠ Some (Ctrl c).
Proof. intros H Hn. destruct (H o) as [E|[_ E]]; congruence. Qed.

(** The loop of [handleSelectEnd]. *)
Lemma forEach_selectEndLayer c ms a :
  ∃ a', forEach (selectEndLayer c) ms a = (inl tt, a') ∧
    only_detaches c (scene a) (scene a') ∧
    (∀ k x g, (k, x) ∈ ms → glassLayer x = true → glass x = Some g →
       scene a' !! Obj g ≠ Some (Ctrl c)) ∧
    same_boot a a' ∧
    isToolbarVisible a' = isToolbarVisible a ∧
    log a' = log a ++ concat (select_end_calls c <$> ms).
Proof.
  revert a. induction ms as [|[k x] ms IH]; intros a; cbn [forEach].
  - exists a. rewrite ret_eq. split; [done|]. split; [apply only_detaches_refl|].
    split; [by intros k x g ?%elem_of_nil|]. split; [reflexivity|].
    split; [done|]. by rewrite app_nil_r.
  - rewrite bind_eq.
    pose proof (same_boot_handleSelectEnd c) as HS.
    assert (∃ a1, selectEndLayer c x k a = (inl tt, a1) ∧
              only_detaches c (scene a) (scene a1) ∧
              (glassLayer x = true → ∀ g, glass x = Some g →
                 scene a1 !! Obj g ≠ Some (Ctrl c)) ∧
              same_boot a a1 ∧
              isToolbarVisible a1 = isToolbarVisible a ∧
              log a1 = log a ++ select_end_calls c (k, x))
      as (a1 & -> & Hd1 & Hg1 & Hb1 & Hi1 & Hl1).
    { unfold selectEndLayer, select_end_calls. cbn [fst snd].
      destruct (glassLayer x).
      - unfold controller_remove. msimpl. eexists. split; [done|]. app_simpl.
        split; [apply only_detaches_remove|].
        split; [intros _ g ->; apply remove_detached|].
        split; [|split; [done|by rewrite <- app_assoc]].
        repeat split; try done. eexists [_; _].
        split; [app_simpl; by rewrite <- app_assoc|done].
      - exists a. rewrite ret_eq. split; [done|].
        split; [apply only_detaches_refl|]. split; [done|].
        split; [reflexivity|]. split; [done|]. by rewrite app_nil_r. }
    destruct (IH a1) as (a' & -> & Hd & Hg & Hb & Hi & Hl).
    exists a'. split; [done|].
    split; [by eapply only_detaches_trans|].
    split; [|split; [by etrans|split; [congruence|]]].
    + intros k' x' g [[= -> ->]|Hin]%elem_of_cons Hgl Eg.
      * eapply only_detaches_detached; [exact Hd|]. by apply Hg1.
      * by eapply Hg.
    + rewrite Hl, Hl1, fmap_cons. cbn [concat]. by rewrite <- app_assoc.
Qed.

Lemma select_end_spec a c :
  ∃ a', step a (SelectEnd c) = a' ∧
    only_detaches c (scene a) (scene a') ∧
    (∀ k x g, (k, x) ∈ mediaLayers a → glassLayer x = true → glass x = Some g →
       scene a' !! Obj g ≠ Some (Ctrl c)) ∧
    same_boot a a' ∧
    isToolbarVisible a' = isToolbarVisible a ∧
    log a' = log a ++ concat (select_end_calls c <$> mediaLayers a).
Proof.
  cbn [step]. unfold as_listener, handleSelectEnd. rewrite bind_eq, gets_eq.
  destruct (forEach_selectEndLayer c (mediaLayers a) a) as (a' & -> & H).
  by exists a'.
Qed.

(** X18: [handleSelectEnd(controller)]: for every layer with a glass layer it
    calls [glassLayer.move()] and then takes the overlay off the
    controller, and it never throws.  Afterwards no overlay of such a layer
    is a child of that controller, an overlay that was one has no parent
    left (nothing puts it back into the scene), and the objects in the
    scene or on the other controller, as well as the marks of the toolbars,
    are as before. *)
Theorem select_end_detaches_overlays a c :
  let a' := step a (SelectEnd c) in
  log a' = log a ++ concat (select_end_calls c <$> mediaLayers a) ∧
  (∀ k x g, (k, x) ∈ mediaLayers a → glassLayer x = true → glass x = Some g →
     scene a' !! Obj g ≠ Some (Ctrl c) ∧
     (scene a !! Obj g = Some (Ctrl c) → scene a' !! Obj g = None)) ∧
  (∀ o p, p ≠ Ctrl c → scene a' !! o = Some p ↔ scene a !! o = Some p) ∧
  isToolbarVisible a' = isToolbarVisible a.
Proof.
  intros a'. subst a'.
  destruct (select_end_spec a c) as (a' & -> & Hd & Hg & _ & Hi & Hl).
  split; [done|]. split; [|split; [|done]].
  - intros k x g Hin Hgl Eg. split; [by eapply Hg|].
    intros E. destruct (Hd (Obj g)) as [E'|[_ E']]; [|done].
    destruct (Hg k x g Hin Hgl Eg). congruence.
  - intros o p Hp. destruct (Hd o) as [->|[E E']]; [done|].
    rewrite E, E'. split; [done|]. intros [= <-]. done.
Qed.

(** *** The markers of the controllers *)

Lemma in_scene_remove_marker o c (g : gmap object3d node) :
  in_scene o (remove Scene (getIntersectPoint c g) g)
  = if decide (o = IntersectPoint c) then false else in_scene o g.
Proof.
  unfold getIntersectPoint, in_scene.
  destruct (g !! IntersectPoint c) as [p|] eqn:E; cbn [remove].
  - rewrite E. destruct (decide (Some p = Some Scene)) as [Ep|Ep].
    + destruct (decide (o = IntersectPoint c)) as [->|Hne].
      * apply bool_decide_eq_false_2. by rewrite lookup_delete_eq.
      * by rewrite lookup_delete_ne.
    + destruct (decide (o = IntersectPoint c)) as [->|Hne]; [|done].
      apply bool_decide_eq_false_2. congruence.
  - destruct (decide (o = IntersectPoint c)) as [->|Hne]; [|done].
    apply bool_decide_eq_false_2. congruence.
Qed.

Lemma in_scene_add o o' (g : gmap object3d node) :
  in_scene o (add Scene (Some o') g)
  = if decide (o = o') then true else in_scene o g.
Proof.
  unfold in_scene. cbn [add]. destruct (decide (o = o')) as [->|Hne].
  - apply bool_decide_eq_true_2. apply lookup_insert_eq.
  - by rewrite lookup_insert_ne.
Qed.

Lemma all_hidden_forallb a m :
  isToolbarVisible a = Some m →
  forallb (λ kl : string * MediaLayer, negb (default false (m !! kl.1)))
          (mediaLayers a)
  = all_hidden a.
Proof. intros Hm. unfold all_hidden, visible. by rewrite Hm. Qed.

(** The pass of [render] over one controller, with the dictionary in
    place. *)
Lemma renderController_spec cast c a :
  is_Some (isToolbarVisible a) →
  ∃ a', renderController cast c a = (inl tt, a') ∧
    same_marks a a' ∧ same_boot a a' ∧
    ∀ o, in_scene o (scene a')
         = if decide (o = IntersectPoint c) then
             if all_hidden a then false
             else if (0 <? length (cast c (all_objects a)))%nat then true
             else in_scene o (scene a)
           else in_scene o (scene a).
Proof.
  intros [m Hm].
  pose proof (same_boot_renderController cast c a) as HS.
  assert (∃ a', renderController cast c a = (inl tt, a') ∧ same_marks a a' ∧
            ∀ o, in_scene o (scene a')
                 = if decide (o = IntersectPoint c) then
                     if all_hidden a then false
                     else if (0 <? length (cast c (all_objects a)))%nat then true
                     else in_scene o (scene a)
                   else in_scene o (scene a)) as (a' & E & HM & Hsc).
  { unfold renderController. rewrite bind_eq, gets_eq, bind_eq.
    fold (all_objects a). unfold handleToolbarIntersections.
    rewrite bind_eq, gets_eq, bind_eq, (checkHidden_all _ _ _ _ Hm).
    cbn [andb]. rewrite (all_hidden_forallb _ _ Hm).
    destruct (all_hidden a).
    - unfold scene_remove. msimpl.
      eexists. split; [done|]. split; [done|].
      intros o. app_simpl. rewrite in_scene_remove_marker.
      by destruct (decide _).
    - destruct (0 <? length (cast c (all_objects a)))%nat.
      + unfold scene_add. msimpl.
        eexists. split; [done|]. split; [done|].
        intros o. app_simpl. apply in_scene_add.
      + msimpl. exists a. split; [done|]. split; [done|].
        intros o. by destruct (decide _). }
  exists a'. rewrite E in HS. done.
Qed.

Lemma all_hidden_same_marks a a' : same_marks a a' → all_hidden a' = all_hidden a.
Proof. intros [Hi Hm]. unfold all_hidden, visible. by rewrite Hi, Hm. Qed.

Lemma all_objects_same_marks a a' : same_marks a a' → all_objects a' = all_objects a.
Proof. intros [_ Hm]. unfold all_objects. by rewrite Hm. Qed.

(** X20: [render] and [handleToolbarIntersections], with the dictionary of
    visibility in place: after a frame the marker of a controller is out of
    the scene when every toolbar is hidden; it is in the scene when some
    toolbar is visible and the ray of the controller hits an interactive
    object of some layer; and when some toolbar is visible and the ray hits
    nothing the marker is left as it was. *)
Theorem frame_places_intersection_markers a pr cast c :
  is_Some (isToolbarVisible a) →
  in_scene (IntersectPoint c) (scene (step a (Frame pr cast)))
  = if all_hidden a then false
    else if (0 <? length (cast c (all_objects a)))%nat then true
    else in_scene (IntersectPoint c) (scene a).
Proof.
  intros Hi. cbn [step]. unfold render, as_async, render_body.
  rewrite bind_eq.
  destruct (updateLayers_spec pr a) as (a1 & -> & _ & _ & Hm1 & Hi1 & Hsc1 & _).
  assert (same_marks a a1) as HM1 by done.
  unfold controllers. cbn [forOf]. rewrite !bind_eq.
  destruct (renderController_spec cast Controller0 a1) as (a2 & -> & HM2 & _ & Hsc2);
    [by rewrite Hi1|].
  rewrite !bind_eq.
  destruct (renderController_spec cast Controller1 a2) as (a3 & -> & HM3 & _ & Hsc3).
  { destruct HM2 as [-> _]. by rewrite Hi1. }
  rewrite ret_eq, bind_eq, gets_eq.
  assert (in_scene (IntersectPoint c) (scene a3)
          = if all_hidden a then false
            else if (0 <? length (cast c (all_objects a)))%nat then true
            else in_scene (IntersectPoint c) (scene a)) as <-.
  { rewrite Hsc3, Hsc2.
    rewrite (all_hidden_same_marks _ _ HM2), (all_objects_same_marks _ _ HM2).
    rewrite (all_hidden_same_marks _ _ HM1), (all_objects_same_marks _ _ HM1).
    rewrite Hsc1.
    destruct c; repeat (destruct (decide _); try done);
      by destruct (all_hidden a), (0 <? _)%nat. }
  destruct (bootstrap_guard a3); [by rewrite startBootstrap_eq|done].
Qed.

Lemma frame_places_intersection_markers_witness :
  in_scene (IntersectPoint Controller1)
           (scene (step Scenario.dragging (Frame true Scenario.hit_all))) = true.
Proof.
  pose proof (frame_places_intersection_markers Scenario.dragging true
                Scenario.hit_all Controller1) as H.
  rewrite H; [reflexivity|]. eexists. vm_compute. reflexivity.
Defined.

(** *** The start of a drag *)

Lemma overlay_private_elem key g ms k x :
  overlay_private key g ms = true → (k, x) ∈ ms →
  toolbarGroup x ≠ g ∧ (k ≠ key → glass x ≠ Some g).
Proof.
  unfold overlay_private. rewrite forallb_forall. intros H Hin.
  apply list_elem_of_In, H in Hin. cbn in Hin.
  apply andb_prop in Hin as [H1 H2]. apply bool_decide_eq_true in H1.
  split; [done|]. intros Hk.
  apply orb_prop in H2 as [H2|H2]; apply bool_decide_eq_true in H2; done.
Qed.

Lemma select_start_attaches c cast a key x g :
  is_Some (isToolbarVisible a) → NoDup (mediaLayers a).*1 →
  layers_wf (mediaLayers a) = true → (key, x) ∈ mediaLayers a →
  visible key a = true → glassLayer x = true → glass x = Some g →
  overlay_private key g (mediaLayers a) = true →
  cast c (objects x) ≠ [] →
  let a' := step a (SelectStart c cast) in
  same_boot a a' ∧
  scene a' !! Obj g = Some (Ctrl c) ∧ visible key a' = true ∧
  Update key (cast c (objects x)) ∈ log a'.
Proof.
  intros Hi Hnd Hwf Hin Hv Hgl Eg Hpr Hhit a'.
  split; [apply same_boot_as_listener, same_boot_handleSelectStart|].
  subst a'. cbn [step]. unfold as_listener, handleSelectStart.
  rewrite bind_eq, gets_eq.
  destruct (list_elem_of_split _ _ Hin) as (ms1 & ms2 & Hms).
  assert (∀ k' x', (k', x') ∈ ms1 ++ ms2 → k' ≠ key) as Hne.
  { intros k' x' Hin' ->. rewrite Hms, fmap_app, fmap_cons in Hnd.
    apply NoDup_app in Hnd as (_ & Hd1 & Hd2). apply NoDup_cons in Hd2 as [Hd2 _].
    apply elem_of_app in Hin' as [Hin'|Hin'].
    - apply (Hd1 key); [|by left]. apply list_elem_of_fmap. by exists (key, x').
    - apply Hd2. apply list_elem_of_fmap. by exists (key, x'). }
  assert (∀ a0 ms, mediaLayers a0 = mediaLayers a → ms ⊆ ms1 ++ ms2 →
            ∀ k x0, (k, x0) ∈ ms →
              (k, x0) ∈ mediaLayers a0 ∧
              (glassLayer x0 = true → is_Some (glass x0)) ∧
              k ≠ key ∧ toolbarGroup x0 ≠ g ∧ glass x0 ≠ Some g) as Hothers.
  { intros a0 ms E Hsub k x0 Hin0.
    assert ((k, x0) ∈ mediaLayers a) as Hin1.
    { rewrite Hms. apply Hsub, elem_of_app in Hin0 as [?|?];
        apply elem_of_app; [by left|right; by right]. }
    destruct (overlay_private_elem _ _ _ _ _ Hpr Hin1) as [Ht Hg].
    rewrite E. repeat split; try done.
    - by apply (layers_wf_elem (mediaLayers a) k).
    - by apply (Hne k x0), Hsub.
    - apply Hg. by apply (Hne k x0), Hsub. }
  rewrite Hms, forEach_app.
  destruct (forEach_others c cast key g ms1 a Hi) as (a1 & -> & HS1 & HK1).
  { apply (Hothers a ms1 eq_refl). intros ? ?. apply elem_of_app. by left. }
  cbn [forEach]. rewrite bind_eq.
  assert (mediaLayers a1 = mediaLayers a) as Hm1
    by (by destruct HS1 as (_ & _ & ? & _)).
  assert (visible key a1 = true) as Hv1 by (destruct HK1 as (-> & _); done).
  unfold visible in Hv1.
  destruct (isToolbarVisible a1) as [m1|] eqn:Ei1; [|done].
  destruct (m1 !! key) as [[]|] eqn:Ek1; try done.
  destruct (selectStartLayer_visible c cast x key a1 m1 Ei1 Ek1)
    as (a0 & HS0 & HK0 & Ei0 & ->); [by rewrite Hm1|].
  destruct (length (cast c (objects x)) =? 0)%nat eqn:Elen.
  { apply Nat.eqb_eq in Elen. by destruct (cast c (objects x)). }
  rewrite Hgl, Eg. cbn [fmap option_fmap option_map controller_attach].
  rewrite modify_eq.
  match goal with |- context [forEach _ ms2 ?s] => set (a2 := s) end.
  assert (is_Some (isToolbarVisible a2)) as Hi2 by (subst a2; app_simpl; by eexists).
  assert (mediaLayers a2 = mediaLayers a) as Hm2.
  { subst a2. app_simpl. destruct HS0 as (_ & _ & -> & _). done. }
  destruct (forEach_others c cast key g ms2 a2 Hi2) as (a3 & -> & HS3 & HK3).
  { apply (Hothers a2 ms2 Hm2). intros ? ?. apply elem_of_app. by right. }
  destruct HK3 as (Hv3 & Hs3 & l3 & Hl3 & _).
  rewrite Hs3, Hv3, Hl3. subst a2. app_simpl.
  split; [apply lookup_insert_eq|].
  split; [unfold visible; app_simpl; by rewrite Ei0, Ek1|].
  rewrite !elem_of_app. left. left. right. by left.
Qed.

(** X19: [handleSelectStart] then [handleSelectEnd], a drag of the overlay of a
    glass layer: a select-start whose ray hits the visible toolbar of a
    layer with a glass layer passes the hits to [update] and attaches the
    overlay to that controller, the toolbar staying visible.  A select-end
    of the same controller then takes the overlay off the graph; a
    select-end of the other controller leaves it attached. *)
Theorem drag_attaches_and_releases_overlay a c cast key x g :
  is_Some (isToolbarVisible a) → NoDup (mediaLayers a).*1 →
  layers_wf (mediaLayers a) = true → (key, x) ∈ mediaLayers a →
  visible key a = true → glassLayer x = true → glass x = Some g →
  overlay_private key g (mediaLayers a) = true →
  cast c (objects x) ≠ [] →
  let a' := step a (SelectStart c cast) in
  scene a' !! Obj g = Some (Ctrl c) ∧ visible key a' = true ∧
  Update key (cast c (objects x)) ∈ log a' ∧
  scene (step a' (SelectEnd c)) !! Obj g = None ∧
  ∀ c', c' ≠ c → scene (step a' (SelectEnd c')) !! Obj g = Some (Ctrl c).
Proof.
  intros Hi Hnd Hwf Hin Hv Hgl Eg Hpr Hhit a'.
  destruct (select_start_attaches c cast a key x g Hi Hnd Hwf Hin Hv Hgl Eg Hpr Hhit)
    as (HS & Hs & Hv' & Hl).
  fold a' in HS, Hs, Hv', Hl.
  assert ((key, x) ∈ mediaLayers a') as Hin'
    by (destruct HS as (_ & _ & -> & _); done).
  split; [done|]. split; [done|]. split; [done|]. split.
  - destruct (select_end_spec a' c) as (a'' & -> & Hd & Hg & _).
    destruct (Hd (Obj g)) as [E|[_ E]]; [|done].
    destruct (Hg key x g Hin' Hgl Eg). congruence.
  - intros c' Hc.
    destruct (select_end_spec a' c') as (a'' & -> & Hd & _).
    destruct (Hd (Obj g)) as [E|[E _]]; congruence.
Qed.

Lemma drag_attaches_and_releases_overlay_witness :
  let a' := step Scenario.shown (SelectStart Controller0 Scenario.hit_all) in
  scene a' !! Obj 24 = Some (Ctrl Controller0) ∧
  scene (step a' (SelectEnd Controller0)) !! Obj 24 = None.
Proof.
  intros a'.
  destruct (drag_attaches_and_releases_overlay Scenario.shown Controller0
              Scenario.hit_all "quad" Scenario.quadLayer 24)
    as (H1 & _ & _ & H2 & _).
  - eexists. vm_compute. reflexivity.
  - vm_compute. apply NoDup_cons. split; [|apply NoDup_singleton].
    by intros ?%list_elem_of_singleton.
  - reflexivity.
  - vm_compute. right. left.
  - reflexivity.
  - reflexivity.
  - reflexivity.
  - reflexivity.
  - discriminate.
  - split; [exact H1|exact H2].
Defined.

(** *** Hiding the toolbars *)

(** The loop of [hideToolbars], with the dictionary in place. *)
Lemma forEach_hide (ms : list (string * MediaLayer)) a m :
  isToolbarVisible a = Some m →
  ∃ m', forEach (λ (_ : MediaLayer) layerName, write_visible layerName false) ms a
        = (inl tt, set_isToolbarVisible (Some m') a) ∧
    (∀ key, key ∈ ms.*1 → m' !! key = Some false) ∧
    (∀ key, key ∉ ms.*1 → m' !! key = m !! key).
Proof.
  revert a m. induction ms as [|[k x] ms IH]; intros a m Hm; cbn [forEach].
  - exists m. rewrite ret_eq. split; [|split].
    + f_equal. by destruct a; cbn in *; subst.
    + by intros key ?%elem_of_nil.
    + done.
  - rewrite bind_eq, (write_visible_Some _ _ _ _ Hm).
    destruct (IH (set_isToolbarVisible (Some (<[k:=false]> m)) a) _ eq_refl)
      as (m' & -> & Hin & Hout).
    exists m'. split; [done|]. split.
    + intros key [->|Hk]%elem_of_cons; [|by apply Hin].
      destruct (decide (k ∈ ms.*1)) as [Hk|Hk]; [by apply Hin|].
      rewrite Hout by done. apply lookup_insert_eq.
    + intros key Hk%not_elem_of_cons. destruct Hk as [Hne Hk].
      rewrite Hout by done. by rewrite lookup_insert_ne.
Qed.

(** X22: [hideToolbars()], in any state: it never throws and changes nothing
    but the dictionary of visibility.  It creates the dictionary when there
    is none, sets the entry of every stored layer to [false] and leaves any
    other entry as it was; every toolbar is hidden afterwards. *)
Theorem hideToolbars_hides_every_layer a :
  ∃ m, hideToolbars a = (inl tt, set_isToolbarVisible (Some m) a) ∧
    (∀ key, key ∈ (mediaLayers a).*1 → m !! key = Some false) ∧
    (∀ key, key ∉ (mediaLayers a).*1 →
       m !! key = isToolbarVisible a ≫= (.!! key)) ∧
    all_hidden (set_isToolbarVisible (Some m) a) = true.
Proof.
  assert (∀ m, (∀ key, key ∈ (mediaLayers a).*1 → m !! key = Some false) →
            all_hidden (set_isToolbarVisible (Some m) a) = true) as Hall.
  { intros m Hin. unfold all_hidden, visible. app_simpl.
    apply forallb_forall. intros [k x] Hk%list_elem_of_In. cbn.
    rewrite Hin; [done|]. apply list_elem_of_fmap. by exists (k, x). }
  unfold hideToolbars. rewrite bind_eq, gets_eq.
  destruct (isToolbarVisible a) as [m0|] eqn:E.
  - rewrite bind_eq, ret_eq, bind_eq, gets_eq.
    destruct (forEach_hide (mediaLayers a) a m0 E) as (m & -> & Hin & Hout).
    exists m. split; [done|]. split; [done|]. split; [done|]. by apply Hall.
  - rewrite bind_eq, modify_eq, bind_eq, gets_eq.
    destruct (forEach_hide (mediaLayers a) (set_isToolbarVisible (Some ∅) a) ∅
                eq_refl) as (m & Hm & Hin & Hout).
    app_simpl. rewrite Hm.
    exists m. split; [done|]. split; [done|].
    split; [|by apply Hall].
    intros key Hk. rewrite Hout by done. apply lookup_empty.
Qed.

End MultipleLayersMore.

(** ** More about [MediaLayerManager] *)

Module MediaLayerManagerMore.
Import MediaLayerManager MediaLayerManagerFacts.

(** X1: [createLayer] never creates a layer: whatever the layer type and
    whatever the host answers, it calls neither [createQuadLayer] nor
    [createEquirectLayer]; the only call it may make is
    [requestReferenceSpace("local")], and the only value its promise may
    resolve to is [undefined], for the layer type [undefined]. *)
Theorem createLayer_never_creates_a_layer
    (session mediaFactory : N) (h : host) (video layerType : value)
    (options : gmap string value) :
  let r := createLayer session mediaFactory h video layerType options in
  (r.1 = [] ∨ r.1 = [RequestReferenceSpace "local"]) ∧
  (∀ c, c ∈ r.1 → ∀ v o, c ≠ CreateQuadLayer v o ∧ c ≠ CreateEquirectLayer v o) ∧
  (∀ v, r.2 = Resolved v → v = VUndefined ∧ layerType = VUndefined).
Proof.
  intros r. subst r.
  destruct (decide (layerType = VUndefined)) as [->|Hdef].
  - unfold createLayer. rewrite this_QUAD_LAYER, this_EQUIRECT_LAYER. cbn.
    destruct (requestReferenceSpace h "local") as [refSpace|e]; cbn.
    + split; [by right|]. split; [|by intros v [= <-]].
      by intros c ->%list_elem_of_singleton v o.
    + split; [by right|]. split; [|done].
      by intros c ->%list_elem_of_singleton v o.
  - rewrite createLayer_defined_rejected by done. cbn.
    split; [by left|]. split; [|done]. by intros c ?%elem_of_nil.
Qed.

(** X2: [createLayer] with the layer types its callers are meant to pass, the
    constants [MediaLayerManager.QUAD_LAYER] and
    [MediaLayerManager.EQUIRECT_LAYER]: both are rejected with the
    invalid-layer-type error before the session or the media binding is
    called. *)
Theorem createLayer_rejects_both_layer_constants
    (session mediaFactory : N) (h : host) (video : value)
    (options : gmap string value) :
  class_get "QUAD_LAYER" = VString "QUAD_LAYER" ∧
  class_get "EQUIRECT_LAYER" = VString "EQUIRECT_LAYER" ∧
  createLayer session mediaFactory h video (class_get "QUAD_LAYER") options
  = ([], Rejected InvalidLayerType) ∧
  createLayer session mediaFactory h video (class_get "EQUIRECT_LAYER") options
  = ([], Rejected InvalidLayerType).
Proof.
  split; [done|]. split; [done|].
  split; by apply createLayer_defined_rejected.
Qed.

End MediaLayerManagerMore.
